(** * JSON output of scan results: [formattedcode/output_json.py]

    A shallow embedding of [write_results] and [get_results] together with
    the collaborators they drive: the codebase object, the lazy sequence of
    file records, file objects, and the streaming JSON encoder. *)

From Stdlib Require Import String Ascii List ZArith Bool Arith Lia.
From Stdlib Require Import DecimalString DecimalZ DecimalPos DecimalFacts.
Import ListNotations.
Set Warnings "-register-all".
Local Open Scope list_scope.
Local Open Scope string_scope.

(* ================================================================= *)
(** ** JSON values *)

(** The values the module hands to the encoder: what a header mapping, an
    attribute value or a file record is made of.  Integers are the only
    numbers in the model (floating point is left out); a string is a
    sequence of characters with code points below 256. *)
Inductive json : Type :=
| JNull
| JBool (b : bool)
| JInt (z : Z)
| JStr (s : string)
| JList (l : list json)
| JDict (d : list (string * json)).

(** A Python [dict] / [OrderedDict] keeps insertion order; assigning to a
    key that is present replaces the value in place, assigning to a new key
    appends it. *)
Fixpoint dict_set {V : Type} (k : string) (v : V) (d : list (string * V))
  : list (string * V) :=
  match d with
  | [] => [(k, v)]
  | (k', v') :: d' =>
      if String.eqb k' k then (k', v) :: d' else (k', v') :: dict_set k v d'
  end.

Fixpoint dict_get {V : Type} (k : string) (d : list (string * V)) : option V :=
  match d with
  | [] => None
  | (k', v') :: d' => if String.eqb k' k then Some v' else dict_get k d'
  end.

(** [d.update(other)]: assign every item of [other], in its order. *)
Definition dict_update {V : Type} (d other : list (string * V))
  : list (string * V) :=
  fold_left (fun acc kv => dict_set (fst kv) (snd kv) acc) other d.

Definition keys {V : Type} (d : list (string * V)) : list string := map fst d.

(* ================================================================= *)
(** ** The encoder of atomic values *)

Definition dq : string := String (ascii_of_nat 34) "".
Definition bs : string := String (ascii_of_nat 92) "".
Definition nl : string := String (ascii_of_nat 10) "".

Definition hex_digit (n : nat) : ascii :=
  ascii_of_nat (if (n <? 10)%nat then 48 + n else 87 + n).

(** The encoding library is not part of this module.  [write_results]
    hands it [indent] and [pretty] and nothing else (lines 129-132 and 141),
    so the text of a value is what [json.JSONEncoder] writes by default for
    that [indent]; the definitions below follow those defaults.

    Strings: the quote and the backslash are escaped, the control characters
    with a short escape use it, and every other character outside the
    printable ASCII range is written as a [\u] escape of four hexadecimal
    digits (the default [ensure_ascii]). *)
Definition escape_char (c : ascii) : string :=
  let n := nat_of_ascii c in
  if (n =? 34)%nat then bs ++ dq
  else if (n =? 92)%nat then bs ++ bs
  else if (n =? 10)%nat then bs ++ "n"
  else if (n =? 13)%nat then bs ++ "r"
  else if (n =? 9)%nat then bs ++ "t"
  else if (n =? 8)%nat then bs ++ "b"
  else if (n =? 12)%nat then bs ++ "f"
  else if ((n <? 32) || (126 <? n))%nat then
    bs ++ "u00" ++ String (hex_digit (n / 16)) (String (hex_digit (n mod 16)) "")
  else String c "".

Fixpoint escape (s : string) : string :=
  match s with
  | EmptyString => ""
  | String c s' => escape_char c ++ escape s'
  end.

Definition encode_string (s : string) : string := dq ++ escape s ++ dq.

Definition encode_int (z : Z) : string := NilZero.string_of_int (Z.to_int z).

Fixpoint spaces (n : nat) : string :=
  match n with
  | O => ""
  | S n' => String " " (spaces n')
  end.

(** The layout of one nesting level.  With [indent = Some n] every item
    sits on a line of its own, [n] spaces deeper per level; with
    [indent = None] the text stays on one line. *)
Definition newline_indent (indent : option nat) (level : nat) : string :=
  match indent with
  | None => ""
  | Some n => nl ++ spaces (n * level)
  end.

(** The separators are the encoder's defaults, since the module passes
    none: a colon and a space after a key, whatever the indentation; between
    two items a comma and a space on one line, a comma and a line break when
    indented.  The module's own constants [comma] and [colon] are not handed
    to the encoder. *)
Definition key_separator (indent : option nat) : string := ": ".

Definition item_separator (indent : option nat) (level : nat) : string :=
  match indent with
  | None => ", "
  | Some _ => "," ++ newline_indent indent level
  end.

(** The encoder of one atomic value: [encode indent level j] is the text
    of [j] when it sits at nesting depth [level]. *)
Fixpoint encode (indent : option nat) (level : nat) (j : json) : string :=
  match j with
  | JNull => "null"
  | JBool true => "true"
  | JBool false => "false"
  | JInt z => encode_int z
  | JStr s => encode_string s
  | JList [] => "[]"
  | JList l =>
      "[" ++ newline_indent indent (S level)
      ++ String.concat (item_separator indent (S level))
           (map (encode indent (S level)) l)
      ++ newline_indent indent level ++ "]"
  | JDict [] => "{}"
  | JDict d =>
      "{" ++ newline_indent indent (S level)
      ++ String.concat (item_separator indent (S level))
           (map (fun kv => encode_string (fst kv) ++ key_separator indent
                           ++ encode indent (S level) (snd kv)) d)
      ++ newline_indent indent level ++ "}"
  end.

(* ================================================================= *)
(** ** Python values, exceptions and the world the module runs in *)

(** What a Python variable of the module can hold: a value made of plain
    data, or a reference to a lazy [map] object (the file-record sequence
    of Python 3), which lives in the store and is consumed in place. *)
Inductive pyval : Type :=
| Concrete (j : json)
| Lazy (m : nat).

Inductive exn : Type :=
| IOError            (* [open] refused the path *)
| ValueError         (* I/O operation on a closed file *)
| TypeError          (* value is not JSON serializable, or not of the
                        kind the file object takes *)
| CollaboratorError. (* raised by the codebase while producing a record *)

(** One step of the file-record sequence: a record, or the collaborator
    raising. *)
Inductive item : Type :=
| Yield (r : json)
| Throw (e : exn).

(** Keyword options passed through to the collaborator, opaque here. *)
Definition kwargs : Type := list (string * json).

(** Modelled from the spec: the codebase collaborator (its class is not
    part of this module).  [headers] is the header mapping, [attributes] the
    optional attributes object, given by the mapping its [to_dict] returns,
    and each resource yields its record under the caller's options.
    [counted] is the file count the codebase holds for its headers: the
    codebase computes it on its own, and nothing in this module ties it to
    the records the sequence produces. *)
Record Codebase : Type := mkCodebase {
  headers : list (string * json);
  attributes : option (list (string * json));
  resources : list (kwargs -> item);
  counted : nat
}.

(** A file object: what was written to it, whether it was closed, and
    whether its [write] takes the strings the encoder writes.  A sink the
    caller opened may not: on Python 3 a sink opened in binary mode raises
    [TypeError] when handed text. *)
Record FileObj : Type := mkFile {
  f_data : string;
  f_closed : bool;
  f_accepts : bool
}.

(** The mutable state of a [jsonstreams.Stream]. *)
Record StreamObj : Type := mkStream {
  s_fd : nat;
  s_close_fd : bool;
  s_indent : option nat;
  s_pretty : bool;
  s_comma : bool;
  s_closed : bool
}.

(** What the module does to its collaborators, in the order it does it. *)
Inductive event : Type :=
| EvAddFilesCount
| EvGetHeaders
| EvGetFiles (m : nat)
| EvNext (m : nat)
| EvOpen (path : string) (mode : string) (fd : nat)
| EvFdWrite (fd : nat) (text : string)
| EvFdClose (fd : nat)
| EvEntry (key : string) (value : pyval).

Record World : Type := mkWorld {
  w_codebase : Codebase;
  w_files : list FileObj;          (* file objects, a sink is an index *)
  w_denied : list string;          (* paths [open] cannot open *)
  w_maps : list (list item);       (* lazy map objects: what is left *)
  w_streams : list StreamObj;
  w_trace : list event
}.

Definition set_codebase (c : Codebase) (w : World) : World :=
  mkWorld c (w_files w) (w_denied w) (w_maps w) (w_streams w) (w_trace w).
Definition set_files (fs : list FileObj) (w : World) : World :=
  mkWorld (w_codebase w) fs (w_denied w) (w_maps w) (w_streams w) (w_trace w).
Definition set_maps (ms : list (list item)) (w : World) : World :=
  mkWorld (w_codebase w) (w_files w) (w_denied w) ms (w_streams w) (w_trace w).
Definition set_streams (ss : list StreamObj) (w : World) : World :=
  mkWorld (w_codebase w) (w_files w) (w_denied w) (w_maps w) ss (w_trace w).
Definition log (e : event) (w : World) : World :=
  mkWorld (w_codebase w) (w_files w) (w_denied w) (w_maps w) (w_streams w)
          (w_trace w ++ [e])%list.

Fixpoint update_nth {A : Type} (n : nat) (f : A -> A) (l : list A) : list A :=
  match l, n with
  | [], _ => []
  | x :: l', O => f x :: l'
  | x :: l', S n' => x :: update_nth n' f l'
  end.

(* ================================================================= *)
(** ** State and exceptions *)

Inductive result (A : Type) : Type :=
| Ret (a : A)
| Raise (e : exn).
Arguments Ret {A} a.
Arguments Raise {A} e.

Definition M (A : Type) : Type := World -> result A * World.

Definition ret {A} (a : A) : M A := fun w => (Ret a, w).
Definition raise {A} (e : exn) : M A := fun w => (Raise e, w).
Definition bind {A B} (c : M A) (k : A -> M B) : M B :=
  fun w => match c w with
           | (Ret a, w') => k a w'
           | (Raise e, w') => (Raise e, w')
           end.
Definition get_world : M World := fun w => (Ret w, w).
Definition modify (f : World -> World) : M unit := fun w => (Ret tt, f w).

Declare Scope py_scope.
Delimit Scope py_scope with py.
Notation "x <- c ;; k" := (bind c (fun x => k))
  (at level 61, c at next level, right associativity) : py_scope.
Notation "' pat <- c ;; k" := (bind c (fun x => match x with pat => k end))
  (at level 61, pat pattern, c at next level, right associativity) : py_scope.
Notation "c ;; k" := (bind c (fun _ => k))
  (at level 61, right associativity) : py_scope.
Local Open Scope py_scope.

(** [try: body finally: fin], which is what a [with] block does with the
    [__exit__] of its context manager: [fin] runs on every exit path, and an
    exception of [fin] replaces the pending one. *)
Definition try_finally {A} (body : M A) (fin : M unit) : M A :=
  fun w => match body w with
           | (r, w') => match fin w' with
                        | (Ret _, w'') => (r, w'')
                        | (Raise e, w'') => (Raise e, w'')
                        end
           end.

(** [for x in xs: body x] *)
Fixpoint for_each {A} (xs : list A) (body : A -> M unit) : M unit :=
  match xs with
  | [] => ret tt
  | x :: xs' => body x ;; for_each xs' body
  end.

(* ================================================================= *)
(** ** File objects *)

Definition mem (p : string) (ps : list string) : bool :=
  existsb (String.eqb p) ps.

(** [open(path, mode)]: a new file object, empty and open.  The module
    opens its sinks with [mode], the mode that takes what the encoder writes
    on the interpreter at hand. *)
Definition open (path mode : string) : M nat :=
  w <- get_world ;;
  if mem path (w_denied w) then raise IOError
  else
    let fd := List.length (w_files w) in
    modify (fun w => log (EvOpen path mode fd)
                       (set_files (w_files w ++ [mkFile "" false true])%list w)) ;;
    ret fd.

(** [fd.write(text)]: refused on a closed file object, and on one that
    does not take text; nothing is written then.  An object that takes one
    write takes them all: a failure partway (a full disk) is not modelled. *)
Definition fd_write (fd : nat) (text : string) : M unit :=
  w <- get_world ;;
  match nth_error (w_files w) fd with
  | Some f =>
      if f_closed f then raise ValueError
      else if negb (f_accepts f) then raise TypeError
      else modify (fun w =>
             log (EvFdWrite fd text)
               (set_files
                  (update_nth fd
                     (fun f => mkFile (f_data f ++ text) (f_closed f)
                                 (f_accepts f))
                     (w_files w)) w))
  | None => raise ValueError
  end.

(** [fd.close()] *)
Definition fd_close (fd : nat) : M unit :=
  modify (fun w =>
    log (EvFdClose fd)
      (set_files
         (update_nth fd (fun f => mkFile (f_data f) true (f_accepts f))
            (w_files w)) w)).

(* ================================================================= *)
(** ** The streaming encoder: [jsonstreams.Stream] of type object *)

(** Modelled from the spec: the streaming encoder (the [jsonstreams]
    library is not part of this module).  The stream writes the opening
    brace when it is built, one entry per [write], and the closing brace when
    it is closed; it closes the sink only when [close_fd] is set.  When the
    sink refuses the opening brace the constructor raises, and the [with]
    block is never entered. *)
Definition Stream (fd : nat) (close_fd : bool) (indent : option nat)
    (pretty : bool) : M nat :=
  w <- get_world ;;
  let s := List.length (w_streams w) in
  modify (set_streams
            (w_streams w ++ [mkStream fd close_fd indent pretty false false])%list) ;;
  fd_write fd "{" ;;
  ret s.

(** Modelled from the spec: the encoder fails fast on a value that is not
    serializable, here a lazy map object. *)
Definition encode_value (indent : option nat) (level : nat) (v : pyval)
  : M string :=
  match v with
  | Concrete j => ret (encode indent level j)
  | Lazy _ => raise TypeError
  end.

Definition set_comma (st : StreamObj) : StreamObj :=
  mkStream (s_fd st) (s_close_fd st) (s_indent st) (s_pretty st) true
           (s_closed st).
Definition set_closed (st : StreamObj) : StreamObj :=
  mkStream (s_fd st) (s_close_fd st) (s_indent st) (s_pretty st) (s_comma st)
           true.

(** The comma the stream writes between two entries: on one line it is
    followed by a space, as between the items of a value; with indentation
    the line break comes with the key. *)
Definition comma_literal (indent : option nat) : string :=
  match indent with
  | None => ", "
  | Some _ => ","
  end.

(** Modelled from the spec: [s.write(key, value)] of the streaming encoder.
    A comma goes before every entry but the first; the key and the value,
    encoded as one atomic text, each go to the sink in one write. *)
Definition Stream_write (s : nat) (key : string) (value : pyval) : M unit :=
  w <- get_world ;;
  match nth_error (w_streams w) s with
  | Some st =>
      if s_closed st then raise ValueError
      else
        modify (log (EvEntry key value)) ;;
        (if s_comma st then fd_write (s_fd st) (comma_literal (s_indent st))
         else ret tt) ;;
        fd_write (s_fd st)
          (newline_indent (s_indent st) 1 ++ encode_string key
           ++ key_separator (s_indent st)) ;;
        text <- encode_value (if s_pretty st then s_indent st else None) 1 value ;;
        fd_write (s_fd st) text ;;
        modify (fun w => set_streams (update_nth s set_comma (w_streams w)) w)
  | None => raise ValueError
  end.

(** Modelled from the spec: [s.close()], also the [__exit__] of the
    stream: the scope is closed, then the sink if the stream owns it. *)
Definition Stream_close (s : nat) : M unit :=
  w <- get_world ;;
  match nth_error (w_streams w) s with
  | Some st =>
      fd_write (s_fd st) (newline_indent (s_indent st) 0 ++ "}") ;;
      modify (fun w => set_streams (update_nth s set_closed (w_streams w)) w) ;;
      (if s_close_fd st then fd_close (s_fd st) else ret tt)
  | None => raise ValueError
  end.

(** [with stream as s: body] *)
Definition with_stream {A} (s : nat) (body : M A) : M A :=
  try_finally body (Stream_close s).

(* ================================================================= *)
(** ** The codebase collaborator and the builtins *)

Definition files_count_key : string := "files_count".

(** Modelled from the spec: [codebase.add_files_count_to_current_header()]
    (the codebase class is not part of this module) stores the file count
    of the codebase in the header mapping.  The count is the codebase's own,
    [counted]: the call reads nothing of the file-record sequence. *)
Definition add_files_count_to_current_header : M nat :=
  w <- get_world ;;
  let c := w_codebase w in
  let files_count := counted c in
  modify (fun w =>
    log EvAddFilesCount
      (set_codebase
         (mkCodebase
            (dict_set files_count_key (JInt (Z.of_nat files_count)) (headers c))
            (attributes c) (resources c) (counted c)) w)) ;;
  ret files_count.

(** Modelled from the spec: [codebase.get_headers()]. *)
Definition get_headers : M pyval :=
  w <- get_world ;;
  modify (log EvGetHeaders) ;;
  ret (Concrete (JDict (headers (w_codebase w)))).

(** [codebase.attributes]: [None], or the attributes object.  An object
    is true in [if codebase.attributes:] whatever its [to_dict] holds. *)
Definition get_attributes : M (option (list (string * json))) :=
  w <- get_world ;;
  ret (attributes (w_codebase w)).

(** [next(m)] over what is left of map object [m], until it is exhausted;
    the records pulled before are in [acc]. *)
Fixpoint pull (m : nat) (pending : list item) (acc : list json)
  : M (list json) :=
  match pending with
  | [] => ret acc
  | it :: pending' =>
      modify (fun w => log (EvNext m)
                         (set_maps (update_nth m (fun _ => pending') (w_maps w)) w)) ;;
      match it with
      | Yield r => pull m pending' (acc ++ [r])%list
      | Throw e => raise e
      end
  end.

(** [list(v)] *)
Definition list_ (v : pyval) : M pyval :=
  match v with
  | Concrete (JList l) => ret (Concrete (JList l))
  | Concrete _ => raise TypeError
  | Lazy m =>
      w <- get_world ;;
      match nth_error (w_maps w) m with
      | Some pending => l <- pull m pending [] ;; ret (Concrete (JList l))
      | None => raise ValueError
      end
  end.

Inductive python : Type := Py2 | Py3.

Inductive descriptor : Type :=
| Path (p : string)
| Sink (fd : nat).

Section Output_json.

(** The interpreter the module is loaded in: [commoncode.system] is not part
    of this module, its two flags are taken from this parameter. *)
Variable runtime : python.

Definition py2 : bool := match runtime with Py2 => true | Py3 => false end.
Definition py3 : bool := match runtime with Py3 => true | Py2 => false end.

Definition TRACE : bool := false.

Definition mode : string := if py2 then "wb" else "w".
Definition space : string := " ".
Definition comma : string := ",".
Definition colon : string := ":".
Definition eol : string := nl.

(** Modelled from the spec: [OutputPlugin.get_files(codebase, **kwargs)]
    (the plugin base class is not part of this module) maps the record
    serializer over the resources: a lazy map object on Python 3, where
    [map] is lazy, and a list on Python 2, where [map] runs at once. *)
Definition get_files (kw : kwargs) : M pyval :=
  w <- get_world ;;
  let m := List.length (w_maps w) in
  modify (fun w =>
    log (EvGetFiles m)
      (set_maps (w_maps w
                 ++ [map (fun r => r kw) (resources (w_codebase w))])%list w)) ;;
  if py3 then ret (Lazy m) else list_ (Lazy m).

(* ================================================================= *)
(** ** [write_results] and [get_results] *)

Definition write_results (output_file : descriptor) (pretty : bool)
    (kw : kwargs) : M unit :=
  let jsonstreams_kwargs :=
    if pretty then (Some 2, true) else (None, false) in
  let close_fd := false in
  '(output_file, close_fd) <-
    match output_file with
    | Path p => fd <- open p mode ;; ret (fd, true)
    | Sink fd => ret (fd, close_fd)
    end ;;
  s <- Stream output_file close_fd (fst jsonstreams_kwargs)
         (snd jsonstreams_kwargs) ;;
  with_stream s (
    (* Write headers *)
    add_files_count_to_current_header ;;
    codebase_headers <- get_headers ;;
    Stream_write s "headers" codebase_headers ;;
    (* Write attributes *)
    codebase_attributes <- get_attributes ;;
    match codebase_attributes with
    | Some to_dict =>
        for_each to_dict
          (fun kv => Stream_write s (fst kv) (Concrete (snd kv)))
    | None => ret tt
    end ;;
    (* Write files *)
    codebase_files <- get_files kw ;;
    codebase_files <- (if py3 then list_ codebase_files
                       else ret codebase_files) ;;
    Stream_write s "files" codebase_files).

Definition get_results (as_list : bool) (kw : kwargs)
  : M (list (string * pyval)) :=
  add_files_count_to_current_header ;;
  codebase_headers <- get_headers ;;
  let results := [("headers", codebase_headers)] in
  (* add codebase toplevel attributes such as summaries *)
  codebase_attributes <- get_attributes ;;
  let results :=
    match codebase_attributes with
    | Some to_dict =>
        dict_update results (map (fun kv => (fst kv, Concrete (snd kv))) to_dict)
    | None => results
    end in
  files <- get_files kw ;;
  files <- (if as_list then list_ files else ret files) ;;
  let results := dict_set "files" files results in
  (if TRACE then list_ files ;; ret tt else ret tt) ;;
  ret results.

(** The two output plugins: [process_codebase] of [JsonCompactOutput] and
    of [JsonPrettyOutput]. *)
Definition JsonCompactOutput_process_codebase (output_json : descriptor)
    (kw : kwargs) : M unit :=
  write_results output_json false kw.

Definition JsonPrettyOutput_process_codebase (output_json_pp : descriptor)
    (kw : kwargs) : M unit :=
  write_results output_json_pp true kw.

End Output_json.

(* ================================================================= *)
(** ** What a run writes, as functions of the codebase *)

(** The text and the events of one [s.write(key, value)] on a stream whose
    comma flag is [cm]. *)
Definition entry_text (ind : option nat) (pr cm : bool) (key : string)
    (j : json) : string :=
  (if cm then comma_literal ind else "") ++ newline_indent ind 1
  ++ encode_string key ++ key_separator ind
  ++ encode (if pr then ind else None) 1 j.

Definition entry_events (fd : nat) (ind : option nat) (pr cm : bool)
    (key : string) (j : json) : list event :=
  (EvEntry key (Concrete j)
   :: (if cm then [EvFdWrite fd (comma_literal ind)] else [])
   ++ [EvFdWrite fd (newline_indent ind 1 ++ encode_string key
                     ++ key_separator ind);
       EvFdWrite fd (encode (if pr then ind else None) 1 j)])%list.

Fixpoint entries_text (ind : option nat) (pr cm : bool)
    (es : list (string * json)) : string :=
  match es with
  | [] => ""
  | kv :: es' =>
      entry_text ind pr cm (fst kv) (snd kv) ++ entries_text ind pr true es'
  end.

Fixpoint entries_events (fd : nat) (ind : option nat) (pr cm : bool)
    (es : list (string * json)) : list event :=
  match es with
  | [] => []
  | kv :: es' =>
      (entry_events fd ind pr cm (fst kv) (snd kv)
       ++ entries_events fd ind pr true es')%list
  end.

(** The records a sequence yields before it raises, the exception it
    raises if any, and what is left of it after that. *)
Fixpoint yielded (items : list item) : list json :=
  match items with
  | [] => []
  | Yield r :: items' => r :: yielded items'
  | Throw _ :: _ => []
  end.

Fixpoint failure (items : list item) : option exn :=
  match items with
  | [] => None
  | Yield _ :: items' => failure items'
  | Throw e :: _ => Some e
  end.

Fixpoint unread (items : list item) : list item :=
  match items with
  | [] => []
  | Yield _ :: items' => unread items'
  | Throw _ :: items' => items'
  end.

Definition pulls (items : list item) : nat :=
  List.length (yielded items)
  + match failure items with Some _ => 1 | None => 0 end.

(** The codebase after the file count went into its headers. *)
Definition injected (c : Codebase) : Codebase :=
  mkCodebase
    (dict_set files_count_key (JInt (Z.of_nat (counted c))) (headers c))
    (attributes c) (resources c) (counted c).

(** The count the codebase holds is the number of its file records: what
    the specification expects of the collaborator. *)
Definition counts_records (c : Codebase) : Prop :=
  counted c = List.length (resources c).

(** The file-record sequence of a codebase under the caller's options. *)
Definition records (c : Codebase) (kw : kwargs) : list item :=
  map (fun r => r kw) (resources c).

Definition attribute_items (c : Codebase) : list (string * json) :=
  match attributes c with
  | Some to_dict => to_dict
  | None => []
  end.

Definition indent_of (pretty : bool) : option nat :=
  if pretty then Some 2 else None.

(** The entries a run of [write_results] writes: the files entry is written
    only when the sequence was read to its end. *)
Definition files_entry (c : Codebase) (kw : kwargs) : list (string * json) :=
  match failure (records c kw) with
  | None => [("files", JList (yielded (records c kw)))]
  | Some _ => []
  end.

Definition written_entries (c : Codebase) (kw : kwargs)
  : list (string * json) :=
  (("headers", JDict (headers (injected c))) :: attribute_items c
   ++ files_entry c kw)%list.

Definition written_text (pretty : bool) (c : Codebase) (kw : kwargs)
  : string :=
  "{" ++ entries_text (indent_of pretty) pretty false (written_entries c kw)
  ++ newline_indent (indent_of pretty) 0 ++ "}".

Definition written_events (fd : nat) (cfd pretty : bool) (c : Codebase)
    (kw : kwargs) (m : nat) : list event :=
  ([EvFdWrite fd "{"; EvAddFilesCount; EvGetHeaders]
   ++ entries_events fd (indent_of pretty) pretty false
        (("headers", JDict (headers (injected c))) :: attribute_items c)
   ++ [EvGetFiles m] ++ repeat (EvNext m) (pulls (records c kw))
   ++ entries_events fd (indent_of pretty) pretty true (files_entry c kw)
   ++ [EvFdWrite fd (newline_indent (indent_of pretty) 0 ++ "}")]
   ++ (if cfd then [EvFdClose fd] else []))%list.

Definition outcome (c : Codebase) (kw : kwargs) : result unit :=
  match failure (records c kw) with
  | None => Ret tt
  | Some e => Raise e
  end.

(* ================================================================= *)
(** ** Observing a run *)

Definition sink_data (w : World) (fd : nat) : option string :=
  option_map f_data (nth_error (w_files w) fd).

Definition is_open (w : World) (fd : nat) : bool :=
  match nth_error (w_files w) fd with
  | Some f => negb (f_closed f)
  | None => false
  end.

Definition is_closed (w : World) (fd : nat) : bool :=
  match nth_error (w_files w) fd with
  | Some f => f_closed f
  | None => false
  end.

(** The sink a descriptor resolves to: the sink itself, or the file object
    [open] is about to create. *)
Definition target (w : World) (d : descriptor) : nat :=
  match d with
  | Path _ => List.length (w_files w)
  | Sink fd => fd
  end.

(** The file object takes the strings the encoder writes. *)
Definition accepts (w : World) (fd : nat) : bool :=
  match nth_error (w_files w) fd with
  | Some f => f_accepts f
  | None => false
  end.

(** The descriptor can be written to: the path opens, the sink is open and
    takes what the stream writes. *)
Definition usable (w : World) (d : descriptor) : bool :=
  match d with
  | Path p => negb (mem p (w_denied w))
  | Sink fd => is_open w fd && accepts w fd
  end.

(** The exception a sink that cannot be written to raises. *)
Definition refusal (w : World) (fd : nat) : exn :=
  if is_open w fd then TypeError else ValueError.

(** The flag "owned" of the resolved sink, [close_fd] in the code. *)
Definition owned (d : descriptor) : bool :=
  match d with
  | Path _ => true
  | Sink _ => false
  end.

(** What the sink holds before the run. *)
Definition before (w : World) (d : descriptor) : string :=
  match d with
  | Path _ => ""
  | Sink fd => match sink_data w fd with Some s => s | None => "" end
  end.

(** A sink nothing was written to yet. *)
Definition fresh (w : World) (d : descriptor) : bool :=
  usable w d && String.eqb (before w d) "".

Definition count (p : event -> bool) (tr : list event) : nat :=
  List.length (filter p tr).

Definition is_injection (e : event) : bool :=
  match e with EvAddFilesCount => true | _ => false end.


Definition is_entry (e : event) : bool :=
  match e with EvEntry _ _ => true | _ => false end.

Definition is_next (e : event) : bool :=
  match e with EvNext _ => true | _ => false end.

Definition is_close (fd : nat) (e : event) : bool :=
  match e with EvFdClose fd' => Nat.eqb fd fd' | _ => false end.

(** The world a run of [write_results] leaves when its sink is usable. *)
Definition opening (rt : python) (w : World) (d : descriptor) : list event :=
  match d with
  | Path p => [EvOpen p (mode rt) (target w d)]
  | Sink _ => []
  end.

Definition after_write (rt : python) (d : descriptor) (pretty : bool)
    (kw : kwargs) (w : World) : World :=
  let c := w_codebase w in
  let text := written_text pretty c kw in
  mkWorld (injected c)
    (match d with
     | Path _ => w_files w ++ [mkFile text true true]
     | Sink fd =>
         update_nth fd
           (fun f => mkFile (f_data f ++ text) (f_closed f) (f_accepts f))
           (w_files w)
     end)%list
    (w_denied w)
    (w_maps w ++ [unread (records c kw)])%list
    (w_streams w
     ++ [mkStream (target w d) (owned d) (indent_of pretty) pretty true true])%list
    (w_trace w ++ opening rt w d
     ++ written_events (target w d) (owned d) pretty c kw
          (List.length (w_maps w)))%list.

(** The mapping [get_results] holds before the files go in. *)
Definition results_base (c : Codebase) : list (string * pyval) :=
  dict_update [("headers", Concrete (JDict (headers (injected c))))]
    (map (fun kv => (fst kv, Concrete (snd kv))) (attribute_items c)).

(** The world a run of [get_results] leaves: the lazy sequence is read only
    where the interpreter or the caller asks for a list. *)
Definition after_get (rt : python) (as_list : bool) (kw : kwargs) (w : World)
  : World :=
  let c := w_codebase w in
  let m := List.length (w_maps w) in
  let read := negb (py3 rt) || as_list in
  mkWorld (injected c) (w_files w) (w_denied w)
    (w_maps w ++ [if read then unread (records c kw) else records c kw])%list
    (w_streams w)
    (w_trace w ++ [EvAddFilesCount; EvGetHeaders; EvGetFiles m]
     ++ (if read then repeat (EvNext m) (pulls (records c kw)) else []))%list.

Definition got (rt : python) (as_list : bool) (kw : kwargs) (w : World)
  : result (list (string * pyval)) :=
  let c := w_codebase w in
  if negb (py3 rt) || as_list then
    match failure (records c kw) with
    | None => Ret (dict_set "files" (Concrete (JList (yielded (records c kw))))
                     (results_base c))
    | Some e => Raise e
    end
  else Ret (dict_set "files" (Lazy (List.length (w_maps w))) (results_base c)).

(* ================================================================= *)
(** ** Reading a document back *)

(** A JSON reader, to state what a consumer of the sink gets: a lexer that
    skips the white space between tokens, then a parser that keeps the
    entries of an object in the order of the text, duplicates included. *)
Inductive token : Type :=
| TLBrace | TRBrace | TLBracket | TRBracket | TComma | TColon
| TString (s : string)
| TNumber (z : Z)
| TTrue | TFalse | TNull.

Inductive lex_state : Type :=
| LStart                                   (* between two tokens *)
| LString (acc : string)                   (* in a string literal *)
| LEscape (acc : string)                   (* after a backslash *)
| LUnicode (acc : string) (ds : list nat)  (* in the digits of \uXXXX *)
| LNumber (acc : string)
| LWord (acc : string).

Definition is_digit (c : ascii) : bool :=
  let n := nat_of_ascii c in ((48 <=? n) && (n <=? 57))%nat.

Definition is_alpha (c : ascii) : bool :=
  let n := nat_of_ascii c in ((97 <=? n) && (n <=? 122))%nat.

Definition is_space (c : ascii) : bool :=
  let n := nat_of_ascii c in
  ((n =? 32) || (n =? 10) || (n =? 13) || (n =? 9))%nat.

Definition hex_value (c : ascii) : option nat :=
  let n := nat_of_ascii c in
  if ((48 <=? n) && (n <=? 57))%nat then Some (n - 48)
  else if ((97 <=? n) && (n <=? 102))%nat then Some (n - 87)
  else if ((65 <=? n) && (n <=? 70))%nat then Some (n - 55)
  else None.

Definition snoc (acc : string) (c : ascii) : string := acc ++ String c "".

Definition number_token (acc : string) : option token :=
  option_map (fun d => TNumber (Z.of_int d)) (NilZero.int_of_string acc).

Definition word_token (acc : string) : option token :=
  if String.eqb acc "true" then Some TTrue
  else if String.eqb acc "false" then Some TFalse
  else if String.eqb acc "null" then Some TNull
  else None.

Definition start_step (c : ascii) : option (lex_state * list token) :=
  let n := nat_of_ascii c in
  if is_space c then Some (LStart, [])
  else if (n =? 123)%nat then Some (LStart, [TLBrace])
  else if (n =? 125)%nat then Some (LStart, [TRBrace])
  else if (n =? 91)%nat then Some (LStart, [TLBracket])
  else if (n =? 93)%nat then Some (LStart, [TRBracket])
  else if (n =? 44)%nat then Some (LStart, [TComma])
  else if (n =? 58)%nat then Some (LStart, [TColon])
  else if (n =? 34)%nat then Some (LString "", [])
  else if ((n =? 45) || is_digit c)%nat then Some (LNumber (String c ""), [])
  else if is_alpha c then Some (LWord (String c ""), [])
  else None.

Definition escape_step (acc : string) (c : ascii)
  : option (lex_state * list token) :=
  let n := nat_of_ascii c in
  if ((n =? 34) || (n =? 92) || (n =? 47))%nat then Some (LString (snoc acc c), [])
  else if (n =? 110)%nat then Some (LString (snoc acc (ascii_of_nat 10)), [])
  else if (n =? 114)%nat then Some (LString (snoc acc (ascii_of_nat 13)), [])
  else if (n =? 116)%nat then Some (LString (snoc acc (ascii_of_nat 9)), [])
  else if (n =? 98)%nat then Some (LString (snoc acc (ascii_of_nat 8)), [])
  else if (n =? 102)%nat then Some (LString (snoc acc (ascii_of_nat 12)), [])
  else if (n =? 117)%nat then Some (LUnicode acc [], [])
  else None.

Definition unicode_step (acc : string) (ds : list nat) (c : ascii)
  : option (lex_state * list token) :=
  match hex_value c with
  | None => None
  | Some v =>
      let ds' := (ds ++ [v])%list in
      if (List.length ds' <? 4)%nat then Some (LUnicode acc ds', [])
      else
        let code := fold_left (fun a d => 16 * a + d)%nat ds' 0%nat in
        if (code <? 256)%nat then Some (LString (snoc acc (ascii_of_nat code)), [])
        else None
  end.

Definition lex_step (st : lex_state) (c : ascii)
  : option (lex_state * list token) :=
  match st with
  | LStart => start_step c
  | LString acc =>
      let n := nat_of_ascii c in
      if (n =? 34)%nat then Some (LStart, [TString acc])
      else if (n =? 92)%nat then Some (LEscape acc, [])
      else if (n <? 32)%nat then None
      else Some (LString (snoc acc c), [])
  | LEscape acc => escape_step acc c
  | LUnicode acc ds => unicode_step acc ds c
  | LNumber acc =>
      if is_digit c then Some (LNumber (snoc acc c), [])
      else
        match number_token acc, start_step c with
        | Some t, Some (st', ts) => Some (st', t :: ts)
        | _, _ => None
        end
  | LWord acc =>
      if is_alpha c then Some (LWord (snoc acc c), [])
      else
        match word_token acc, start_step c with
        | Some t, Some (st', ts) => Some (st', t :: ts)
        | _, _ => None
        end
  end.

Definition lex_finish (st : lex_state) : option (list token) :=
  match st with
  | LStart => Some []
  | LNumber acc => option_map (fun t => [t]) (number_token acc)
  | LWord acc => option_map (fun t => [t]) (word_token acc)
  | _ => None
  end.

Fixpoint lex_from (st : lex_state) (s : string) : option (list token) :=
  match s with
  | EmptyString => lex_finish st
  | String c s' =>
      match lex_step st c with
      | Some (st', ts) => option_map (app ts) (lex_from st' s')
      | None => None
      end
  end.

Definition lex (s : string) : option (list token) := lex_from LStart s.

(** The parser is a stack machine: a frame per container under
    construction, and what the grammar allows next. *)
Inductive frame : Type :=
| InList (acc : list json)
| InDict (acc : list (string * json)) (key : option string).

Inductive expect : Type :=
| EValue | EValueOrEnd | EKeyOrEnd | EKey | EColon | ESep
| EDone (v : json).

Definition config : Type := (list frame * expect)%type.

(** A value is complete: hand it to the container it sits in. *)
Definition reduce (stk : list frame) (v : json) : option config :=
  match stk with
  | [] => Some ([], EDone v)
  | InList acc :: stk' => Some (InList (acc ++ [v]) :: stk', ESep)
  | InDict acc (Some k) :: stk' =>
      Some (InDict (acc ++ [(k, v)]) None :: stk', ESep)
  | InDict _ None :: _ => None
  end.

Definition value_step (stk : list frame) (t : token) : option config :=
  match t with
  | TString s => reduce stk (JStr s)
  | TNumber z => reduce stk (JInt z)
  | TTrue => reduce stk (JBool true)
  | TFalse => reduce stk (JBool false)
  | TNull => reduce stk JNull
  | TLBracket => Some (InList [] :: stk, EValueOrEnd)
  | TLBrace => Some (InDict [] None :: stk, EKeyOrEnd)
  | _ => None
  end.

Definition key_step (stk : list frame) (t : token) : option config :=
  match t, stk with
  | TString k, InDict acc None :: stk' => Some (InDict acc (Some k) :: stk', EColon)
  | _, _ => None
  end.

Definition parse_step (cfg : config) (t : token) : option config :=
  let (stk, e) := cfg in
  match e with
  | EValue => value_step stk t
  | EValueOrEnd =>
      match t, stk with
      | TRBracket, InList [] :: stk' => reduce stk' (JList [])
      | _, _ => value_step stk t
      end
  | EKeyOrEnd =>
      match t, stk with
      | TRBrace, InDict [] None :: stk' => reduce stk' (JDict [])
      | _, _ => key_step stk t
      end
  | EKey => key_step stk t
  | EColon =>
      match t with
      | TColon => Some (stk, EValue)
      | _ => None
      end
  | ESep =>
      match t, stk with
      | TComma, InList _ :: _ => Some (stk, EValue)
      | TComma, InDict _ None :: _ => Some (stk, EKey)
      | TRBracket, InList acc :: stk' => reduce stk' (JList acc)
      | TRBrace, InDict acc None :: stk' => reduce stk' (JDict acc)
      | _, _ => None
      end
  | EDone _ => None
  end.

Fixpoint parse_from (cfg : option config) (ts : list token) : option json :=
  match cfg with
  | None => None
  | Some cfg =>
      match ts with
      | [] => match cfg with
              | ([], EDone v) => Some v
              | _ => None
              end
      | t :: ts' => parse_from (parse_step cfg t) ts'
      end
  end.

Definition parse (s : string) : option json :=
  match lex s with
  | Some ts => parse_from (Some ([], EValue)) ts
  | None => None
  end.

(** The tokens of a value. *)
Fixpoint join {A} (sep : list A) (ls : list (list A)) : list A :=
  match ls with
  | [] => []
  | [x] => x
  | x :: ls' => (x ++ sep ++ join sep ls')%list
  end.

Fixpoint tokens (j : json) : list token :=
  match j with
  | JNull => [TNull]
  | JBool true => [TTrue]
  | JBool false => [TFalse]
  | JInt z => [TNumber z]
  | JStr s => [TString s]
  | JList l => (TLBracket :: join [TComma] (map tokens l) ++ [TRBracket])%list
  | JDict d =>
      (TLBrace
       :: join [TComma]
            (map (fun kv => TString (fst kv) :: TColon :: tokens (snd kv)) d)
       ++ [TRBrace])%list
  end.

(* ================================================================= *)
(** ** The vocabulary of the proofs about the reader *)

(** What may follow a number or a word: the end of the text, or a
    character that cannot continue it. *)
Definition delim (rest : string) : Prop :=
  match rest with
  | EmptyString => True
  | String c _ => is_digit c = false /\ is_alpha c = false
  end.

Definition dstart (s : string) : Prop :=
  match s with
  | EmptyString => False
  | String c _ => is_digit c = false /\ is_alpha c = false
  end.

(** [s] lexes to [ts] whatever follows / when a delimiter follows. *)
Definition lexes_strict (s : string) (ts : list token) : Prop :=
  forall rest,
    lex_from LStart (s ++ rest) = option_map (app ts) (lex_from LStart rest).

Definition lexes (s : string) (ts : list token) : Prop :=
  forall rest, delim rest ->
    lex_from LStart (s ++ rest) = option_map (app ts) (lex_from LStart rest).

(** Running the lexer over the first part of a text. *)
Fixpoint feed (st : lex_state) (s : string) : option (lex_state * list token) :=
  match s with
  | EmptyString => Some (st, [])
  | String c s' =>
      match lex_step st c with
      | Some (st', ts) =>
          match feed st' s' with
          | Some (st'', ts') => Some (st'', (ts ++ ts')%list)
          | None => None
          end
      | None => None
      end
  end.

(** A text made of digits. *)
Fixpoint all_digits (s : string) : Prop :=
  match s with
  | EmptyString => True
  | String c s' => is_digit c = true /\ all_digits s'
  end.

(** What the parser may be waiting for when a value, or a key, comes. *)
Definition wants_value (e : expect) : Prop := e = EValue \/ e = EValueOrEnd.
Definition wants_key (e : expect) : Prop := e = EKey \/ e = EKeyOrEnd.

(* ================================================================= *)
(** ** Callers and example codebases *)

(** A caller invoking an operation, whatever comes of it. *)
Definition invoke {A} (op : M A) (w : World) : World := snd (op w).

(** The scenario of the specification: one header field, no attributes,
    two file records.  Single quotes stand for double quotes in the
    expected text. *)
Fixpoint quoted (s : string) : string :=
  match s with
  | EmptyString => ""
  | String c s' =>
      String (if Ascii.eqb c "'" then ascii_of_nat 34 else c) (quoted s')
  end.

Definition scenario_codebase : Codebase :=
  mkCodebase [("tool_version", JStr "1.0")] None
    [fun _ => Yield (JDict [("path", JStr "a.txt")]);
     fun _ => Yield (JDict [("path", JStr "b.txt")])]
    2.

Definition scenario_world : World :=
  mkWorld scenario_codebase [mkFile "" false true] [] [] [] [].



(** A raising run, for the record: the codebase counts three files, and
    the second record cannot be produced. *)
Definition broken_codebase : Codebase :=
  mkCodebase [("tool_version", JStr "1.0")] None
    [fun _ => Yield (JDict [("path", JStr "a.txt")]);
     fun _ => Throw CollaboratorError;
     fun _ => Yield (JDict [("path", JStr "c.txt")])]
    3.

Definition broken_world : World :=
  mkWorld broken_codebase [mkFile "" false true] [] [] [] [].

(** A codebase with an attribute named [files]. *)
Definition clash_codebase : Codebase :=
  mkCodebase [("tool_version", JStr "1.0")]
    (Some [("files", JInt 1); ("summary", JInt 2)])
    [fun _ => Yield (JDict [("path", JStr "a.txt")])]
    1.

Definition clash_world : World := mkWorld clash_codebase [] [] [] [] [].

(** A world in which the path of the output cannot be opened. *)
Definition locked_world : World :=
  mkWorld scenario_codebase [] ["/locked/scan.json"] [] [] [].


Definition binary_world : World :=
  mkWorld scenario_codebase [mkFile "" false false] [] [] [] [].

(** The items of a mapping as plain data, when all its values are. *)
Fixpoint concrete_items (r : list (string * pyval))
  : option (list (string * json)) :=
  match r with
  | [] => Some []
  | (k, Concrete j) :: r' => option_map (cons (k, j)) (concrete_items r')
  | (_, Lazy _) :: _ => None
  end.

(* ================================================================= *)
(** * Proofs *)

(** ** Strings and lists *)

Lemma append_assoc (a b c : string) : (a ++ b) ++ c = a ++ (b ++ c).
Proof. induction a as [|x a IH]; simpl; [reflexivity | now rewrite IH]. Qed.

Lemma append_nil_r (a : string) : a ++ "" = a.
Proof. induction a as [|x a IH]; simpl; [reflexivity | now rewrite IH]. Qed.

Lemma nth_error_mid {A} (pre post : list A) (x : A) :
  nth_error (pre ++ x :: post)%list (List.length pre) = Some x.
Proof. induction pre; simpl; auto. Qed.

Lemma update_nth_mid {A} (f : A -> A) (pre post : list A) (x : A) :
  update_nth (List.length pre) f (pre ++ x :: post)%list
  = (pre ++ f x :: post)%list.
Proof. induction pre; simpl; [reflexivity | now rewrite IHpre]. Qed.

Lemma nth_error_last {A} (l : list A) (x : A) :
  nth_error (l ++ [x])%list (List.length l) = Some x.
Proof. apply nth_error_mid. Qed.

Lemma update_nth_last {A} (f : A -> A) (l : list A) (x : A) :
  update_nth (List.length l) f (l ++ [x])%list = (l ++ [f x])%list.
Proof. apply update_nth_mid. Qed.

(** ** Running a bind *)

Lemma bind_get_world {B} (k : World -> M B) w :
  bind get_world k w = k w w.
Proof. reflexivity. Qed.

Lemma bind_modify {B} (f : World -> World) (k : unit -> M B) w :
  bind (modify f) k w = k tt (f w).
Proof. reflexivity. Qed.

Lemma bind_ret {A B} (a : A) (k : A -> M B) w : bind (ret a) k w = k a w.
Proof. reflexivity. Qed.

Lemma bind_raise {A B} (e : exn) (k : A -> M B) w :
  bind (raise e) k w = (Raise e, w).
Proof. reflexivity. Qed.

Lemma bind_Ret {A B} (m : M A) (k : A -> M B) w a w' :
  m w = (Ret a, w') -> bind m k w = k a w'.
Proof. intros H. unfold bind. now rewrite H. Qed.

Lemma bind_Raise {A B} (m : M A) (k : A -> M B) w e w' :
  m w = (Raise e, w') -> bind m k w = (Raise e, w').
Proof. intros H. unfold bind. now rewrite H. Qed.

Lemma bind_assoc {A B C} (m : M A) (k : A -> M B) (h : B -> M C) w :
  bind (bind m k) h w = bind m (fun a => bind (k a) h) w.
Proof. unfold bind. destruct (m w) as [[a|e] w']; reflexivity. Qed.

Ltac proj :=
  cbv beta delta [log set_files set_maps set_streams set_codebase];
  cbn [w_codebase w_files w_denied w_maps w_streams w_trace
       s_fd s_close_fd s_indent s_pretty s_comma s_closed
       f_data f_closed f_accepts headers attributes resources counted
       log set_files set_maps set_streams set_codebase set_comma set_closed
       fst snd].

Ltac run :=
  repeat (rewrite bind_get_world || rewrite bind_modify || rewrite bind_ret
          || rewrite bind_raise || proj).

(** ** One step at a time, on a world whose sink takes the writes *)

Section Steps.

Variables (c : Codebase) (pre post : list FileObj) (den : list string).

Local Abbreviation fd := (List.length pre).

Lemma fd_write_open d ms ss tr t :
  fd_write fd t (mkWorld c (pre ++ mkFile d false true :: post) den ms ss tr)
  = (Ret tt,
     mkWorld c (pre ++ mkFile (d ++ t) false true :: post) den ms ss
       (tr ++ [EvFdWrite fd t])).
Proof.
  unfold fd_write. run. rewrite nth_error_mid. proj. cbn [negb].
  unfold modify. proj. now rewrite update_nth_mid.
Qed.

Lemma Stream_write_open d ms ss ss' tr cfd ind pr cm key j :
  Stream_write (List.length ss) key (Concrete j)
    (mkWorld c (pre ++ mkFile d false true :: post) den ms
       (ss ++ mkStream fd cfd ind pr cm false :: ss') tr)
  = (Ret tt,
     mkWorld c
       (pre ++ mkFile (d ++ entry_text ind pr cm key j) false true :: post)
       den ms (ss ++ mkStream fd cfd ind pr true false :: ss')
       (tr ++ entry_events fd ind pr cm key j)).
Proof.
  unfold Stream_write. run. rewrite nth_error_mid. run.
  assert (Hc : forall (k : unit -> M unit) w d0 tr0,
    w = mkWorld c (pre ++ mkFile d0 false true :: post) den ms
          (ss ++ mkStream fd cfd ind pr cm false :: ss') tr0 ->
    bind (if cm then fd_write fd (comma_literal ind) else ret tt) k w
    = k tt (mkWorld c
              (pre ++ mkFile (d0 ++ (if cm then comma_literal ind else ""))
                        false true :: post) den ms
              (ss ++ mkStream fd cfd ind pr cm false :: ss')
              (tr0 ++ (if cm then [EvFdWrite fd (comma_literal ind)]
                       else [])))).
  { intros k w d0 tr0 ->. destruct cm.
    - erewrite bind_Ret by apply fd_write_open. reflexivity.
    - run. now rewrite append_nil_r, List.app_nil_r. }
  erewrite Hc by reflexivity.
  erewrite bind_Ret by apply fd_write_open.
  unfold encode_value. run.
  erewrite bind_Ret by apply fd_write_open.
  unfold modify. proj. rewrite update_nth_mid.
  unfold entry_text, entry_events, set_comma. proj.
  repeat rewrite <- List.app_assoc. repeat rewrite append_assoc. reflexivity.
Qed.

Lemma write_entries_open es : forall d ms ss ss' tr cfd ind pr cm,
  for_each es (fun kv => Stream_write (List.length ss) (fst kv)
                           (Concrete (snd kv)))
    (mkWorld c (pre ++ mkFile d false true :: post) den ms
       (ss ++ mkStream fd cfd ind pr cm false :: ss') tr)
  = (Ret tt,
     mkWorld c
       (pre ++ mkFile (d ++ entries_text ind pr cm es) false true :: post)
       den ms
       (ss ++ mkStream fd cfd ind pr
                (match es with [] => cm | _ => true end) false :: ss')
       (tr ++ entries_events fd ind pr cm es)).
Proof.
  induction es as [|kv es IH]; intros; cbn [for_each entries_text entries_events].
  - now rewrite append_nil_r, List.app_nil_r.
  - erewrite bind_Ret by apply Stream_write_open.
    rewrite IH. rewrite append_assoc, <- List.app_assoc.
    now destruct es.
Qed.

End Steps.

(** ** Reading the file-record sequence *)

Lemma pull_spec m' items : forall c fs den ms x tr ss acc,
  m' = List.length ms ->
  pull m' items acc (mkWorld c fs den (ms ++ [x]) ss tr)
  = (match failure items with
     | None => Ret (acc ++ yielded items)%list
     | Some e => Raise e
     end,
     mkWorld c fs den
       (ms ++ [match items with [] => x | _ => unread items end]) ss
       (tr ++ repeat (EvNext m') (pulls items))).
Proof.
  induction items as [|it items IH]; intros c fs den ms x tr ss acc ->;
    cbn [pull failure yielded unread pulls repeat List.length Nat.add].
  - unfold ret. now rewrite !List.app_nil_r.
  - run. rewrite update_nth_last. cbv beta. proj. destruct it as [r|e].
    + rewrite IH by reflexivity.
      unfold pulls. cbn [yielded List.length Nat.add repeat].
      rewrite <- !List.app_assoc. cbn [List.app].
      destruct items as [|it' items']; reflexivity.
    + unfold raise. cbn [List.length Nat.add repeat]. reflexivity.
Qed.

Lemma list_lazy c fs den ms items ss tr :
  list_ (Lazy (List.length ms)) (mkWorld c fs den (ms ++ [items]) ss tr)
  = (match failure items with
     | None => Ret (Concrete (JList (yielded items)))
     | Some e => Raise e
     end,
     mkWorld c fs den (ms ++ [unread items]) ss
       (tr ++ repeat (EvNext (List.length ms)) (pulls items))).
Proof.
  unfold list_. run. rewrite nth_error_last.
  unfold bind. rewrite pull_spec by reflexivity.
  destruct items as [|it items]; [reflexivity|].
  destruct (failure (it :: items)); reflexivity.
Qed.

(** On both interpreters the files end up in a list before they are
    written: Python 2 builds it in [get_files], Python 3 in [list]. *)
Lemma files_realized rt kw {B} (k : pyval -> M B) c fs den ms ss tr :
  bind (get_files rt kw)
    (fun cf => bind (if py3 rt then list_ cf else ret cf) k)
    (mkWorld c fs den ms ss tr)
  = match failure (records c kw) with
    | None => k (Concrete (JList (yielded (records c kw))))
    | Some e => fun w => (Raise e, w)
    end
      (mkWorld c fs den (ms ++ [unread (records c kw)]) ss
         (tr ++ EvGetFiles (List.length ms)
             :: repeat (EvNext (List.length ms)) (pulls (records c kw)))).
Proof.
  unfold get_files. rewrite bind_assoc. run. rewrite bind_assoc. run.
  fold (records c kw).
  destruct rt; cbn [py3].
  - unfold bind at 1. rewrite list_lazy.
    rewrite <- List.app_assoc. cbn [List.app].
    destruct (failure (records c kw)); reflexivity.
  - run. unfold bind at 1. rewrite list_lazy.
    rewrite <- List.app_assoc. cbn [List.app].
    destruct (failure (records c kw)); reflexivity.
Qed.

Lemma entries_text_app ind pr a : forall cm b,
  entries_text ind pr cm (a ++ b)%list
  = entries_text ind pr cm a
    ++ entries_text ind pr (match a with [] => cm | _ => true end) b.
Proof.
  induction a as [|kv a IH]; intros cm b; cbn [List.app entries_text].
  - reflexivity.
  - rewrite IH, append_assoc. now destruct a.
Qed.

(** ** The stream block of [write_results], on a sink that takes the writes *)

Section Block.

Variables (rt : python) (c : Codebase) (pre post : list FileObj)
          (den : list string) (kw : kwargs) (pretty : bool).

Local Abbreviation fd := (List.length pre).
Local Abbreviation ind := (indent_of pretty).

Lemma Stream_open d ms ss tr cfd {B} (k : nat -> M B) :
  bind (Stream fd cfd ind pretty) k
    (mkWorld c (pre ++ mkFile d false true :: post) den ms ss tr)
  = k (List.length ss)
      (mkWorld c (pre ++ mkFile (d ++ "{") false true :: post) den ms
         (ss ++ [mkStream fd cfd ind pretty false false])
         (tr ++ [EvFdWrite fd "{"])).
Proof.
  unfold Stream. rewrite bind_assoc. run. rewrite bind_assoc. run.
  rewrite bind_assoc.
  erewrite bind_Ret by apply fd_write_open. now run.
Qed.

Lemma Stream_close_open d ms ss tr cfd cm c' :
  Stream_close (List.length ss)
    (mkWorld c' (pre ++ mkFile d false true :: post) den ms
       (ss ++ [mkStream fd cfd ind pretty cm false]) tr)
  = (Ret tt,
     mkWorld c'
       (pre ++ mkFile (d ++ newline_indent ind 0 ++ "}") cfd true :: post)
       den ms (ss ++ [mkStream fd cfd ind pretty cm true])
       (tr ++ EvFdWrite fd (newline_indent ind 0 ++ "}")
           :: (if cfd then [EvFdClose fd] else []))).
Proof.
  unfold Stream_close. run. rewrite nth_error_last. proj.
  erewrite bind_Ret by apply fd_write_open. run.
  rewrite update_nth_last. unfold set_closed. proj.
  destruct cfd.
  - unfold fd_close, modify. proj. rewrite update_nth_mid. proj.
    now rewrite <- List.app_assoc.
  - unfold ret. reflexivity.
Qed.

(** The body of the [with] block, up to the exit of the stream. *)
Lemma block_open d ms ss tr cfd :
  bind (Stream fd cfd (fst (if pretty then (Some 2, true) else (None, false)))
          (snd (if pretty then (Some 2, true) else (None, false))))
    (fun s =>
       with_stream s (
         add_files_count_to_current_header ;;
         codebase_headers <- get_headers ;;
         Stream_write s "headers" codebase_headers ;;
         codebase_attributes <- get_attributes ;;
         match codebase_attributes with
         | Some to_dict =>
             for_each to_dict
               (fun kv => Stream_write s (fst kv) (Concrete (snd kv)))
         | None => ret tt
         end ;;
         codebase_files <- get_files rt kw ;;
         codebase_files <- (if py3 rt then list_ codebase_files
                            else ret codebase_files) ;;
         Stream_write s "files" codebase_files))
    (mkWorld c (pre ++ mkFile d false true :: post) den ms ss tr)
  = (outcome c kw,
     mkWorld (injected c)
       (pre ++ mkFile (d ++ written_text pretty c kw) cfd true :: post) den
       (ms ++ [unread (records c kw)])
       (ss ++ [mkStream fd cfd ind pretty true true])
       (tr ++ written_events fd cfd pretty c kw (List.length ms))).
Proof.
  replace (fst (if pretty then (Some 2, true) else (None, false)))
    with ind by now destruct pretty.
  replace (snd (if pretty then (Some 2, true) else (None, false)))
    with pretty by now destruct pretty.
  rewrite Stream_open.
  unfold with_stream, try_finally.
  match goal with |- context [bind add_files_count_to_current_header ?k ?w] =>
    assert (Hbody : bind add_files_count_to_current_header k w
      = (outcome c kw,
         mkWorld (injected c)
           (pre ++ mkFile (d ++ "{" ++ entries_text ind pretty false
                                      (written_entries c kw)) false true
                :: post)
           den (ms ++ [unread (records c kw)])
           (ss ++ [mkStream fd cfd ind pretty true false])
           (tr ++ [EvFdWrite fd "{"; EvAddFilesCount; EvGetHeaders]
             ++ entries_events fd ind pretty false
                  (("headers", JDict (headers (injected c)))
                   :: attribute_items c)
             ++ [EvGetFiles (List.length ms)]
             ++ repeat (EvNext (List.length ms)) (pulls (records c kw))
             ++ entries_events fd ind pretty true (files_entry c kw))))
  end.
  { unfold add_files_count_to_current_header. rewrite bind_assoc. run.
    rewrite bind_assoc. run.
    unfold get_headers. rewrite bind_assoc. run. rewrite bind_assoc. run.
    erewrite bind_Ret
      by apply (Stream_write_open _ _ _ _ _ _ ss [] _ cfd ind pretty false).
    unfold get_attributes. rewrite bind_assoc. run.
    fold (injected c).
    match goal with |- bind ?m _ _ = _ =>
      assert (Hattrs : forall d0 tr0,
        m (mkWorld (injected c) (pre ++ mkFile d0 false true :: post) den ms
             (ss ++ [mkStream fd cfd ind pretty true false]) tr0)
        = (Ret tt,
           mkWorld (injected c)
             (pre ++ mkFile (d0 ++ entries_text ind pretty true
                                     (attribute_items c)) false true :: post)
             den ms (ss ++ [mkStream fd cfd ind pretty true false])
             (tr0 ++ entries_events fd ind pretty true (attribute_items c))))
    end.
    { intros d0 tr0. unfold attribute_items. destruct (attributes c) as [a|].
      - rewrite (write_entries_open (injected c) pre post den a d0 ms ss []
                   tr0 cfd ind pretty true).
        now destruct a.
      - unfold ret. now rewrite append_nil_r, List.app_nil_r. }
    erewrite bind_Ret by apply Hattrs. clear Hattrs.
    rewrite files_realized.
    change (records (injected c) kw) with (records c kw).
    unfold outcome, written_entries, files_entry.
    destruct (failure (records c kw)) as [e|] eqn:Hf.
    - cbn [entries_events entries_text List.app fst snd].
      rewrite !List.app_nil_r, !append_assoc.
      repeat (rewrite <- !List.app_assoc; cbn [List.app]).
      reflexivity.
    - match goal with |- Stream_write _ _ _ (mkWorld _ (_ ++ mkFile ?d0 _ _ :: _)
                                               _ ?ms0 _ ?tr0) = _ =>
        rewrite (Stream_write_open (injected c) pre post den d0 ms0 ss [] tr0
                   cfd ind pretty true)
      end.
      cbn [entries_events entries_text List.app fst snd].
      rewrite entries_text_app. cbn [entries_text fst snd].
      rewrite !append_assoc, !append_nil_r, !List.app_nil_r.
      repeat (rewrite <- !List.app_assoc; cbn [List.app]).
      now destruct (attribute_items c). }
  rewrite Hbody. clear Hbody.
  rewrite (Stream_close_open _ _ _ _ _ true).
  unfold written_text, written_events.
  rewrite !append_assoc.
  repeat (rewrite <- !List.app_assoc; cbn [List.app]).
  reflexivity.
Qed.

End Block.

(* ================================================================= *)
(** ** The reader inverts the encoder *)

(** *** Lexing *)

Lemma option_map_app {A} (t1 t2 : list A) (x : option (list A)) :
  option_map (app t1) (option_map (app t2) x) = option_map (app (t1 ++ t2)) x.
Proof. destruct x; cbn; [now rewrite List.app_assoc | reflexivity]. Qed.

Lemma option_map_nil {A} (x : option (list A)) : option_map (app []) x = x.
Proof. now destruct x. Qed.

Lemma dstart_delim s rest : dstart s -> delim (s ++ rest).
Proof. destruct s; cbn; [tauto | auto]. Qed.

Lemma strict_lexes s ts : lexes_strict s ts -> lexes s ts.
Proof. intros H rest _. apply H. Qed.

Lemma strict_app s1 t1 s2 t2 :
  lexes_strict s1 t1 -> lexes_strict s2 t2 ->
  lexes_strict (s1 ++ s2) (t1 ++ t2).
Proof.
  intros H1 H2 rest. now rewrite append_assoc, H1, H2, option_map_app.
Qed.

Lemma strict_then s1 t1 s2 t2 :
  lexes_strict s1 t1 -> lexes s2 t2 -> lexes (s1 ++ s2) (t1 ++ t2).
Proof.
  intros H1 H2 rest Hr. now rewrite append_assoc, H1, H2, option_map_app.
Qed.

Lemma lexes_then s1 t1 s2 t2 :
  lexes s1 t1 -> lexes_strict s2 t2 -> dstart s2 ->
  lexes_strict (s1 ++ s2) (t1 ++ t2).
Proof.
  intros H1 H2 Hd rest.
  rewrite append_assoc, H1 by now apply dstart_delim.
  now rewrite H2, option_map_app.
Qed.

Lemma lex_from_feed s : forall st st' ts rest,
  feed st s = Some (st', ts) ->
  lex_from st (s ++ rest) = option_map (app ts) (lex_from st' rest).
Proof.
  induction s as [|c s IH]; intros st st' ts rest H; cbn in H.
  - injection H as <- <-. cbn. now rewrite option_map_nil.
  - cbn [append lex_from].
    destruct (lex_step st c) as [[st1 ts1]|]; [|discriminate].
    destruct (feed st1 s) as [[st2 ts2]|] eqn:E; [|discriminate].
    injection H as <- <-. rewrite (IH _ _ _ rest E).
    now rewrite option_map_app.
Qed.

Lemma strict_feed s ts :
  feed LStart s = Some (LStart, ts) -> lexes_strict s ts.
Proof. intros H rest. now apply lex_from_feed. Qed.

Lemma lex_punct c t :
  start_step c = Some (LStart, t) -> lexes_strict (String c "") t.
Proof. intros H rest. cbn. now rewrite H. Qed.

Lemma lex_spaces n : lexes_strict (spaces n) [].
Proof.
  induction n as [|n IH].
  - intros rest. cbn. now rewrite option_map_nil.
  - change (spaces (S n)) with (" " ++ spaces n).
    change [] with (@nil token ++ [])%list.
    apply strict_app; [now apply lex_punct | exact IH].
Qed.

Lemma lex_newline_indent ind lvl : lexes_strict (newline_indent ind lvl) [].
Proof.
  destruct ind as [n|]; cbn [newline_indent].
  - change [] with (@nil token ++ [])%list.
    apply strict_app; [now apply lex_punct | apply lex_spaces].
  - intros rest. cbn. now rewrite option_map_nil.
Qed.

Lemma lex_key_separator ind : lexes_strict (key_separator ind) [TColon].
Proof. apply strict_feed. reflexivity. Qed.

Lemma lex_comma_literal ind : lexes_strict (comma_literal ind) [TComma].
Proof. apply strict_feed. now destruct ind. Qed.

Lemma item_separator_comma ind lvl :
  item_separator ind lvl = comma_literal ind ++ newline_indent ind lvl.
Proof. now destruct ind. Qed.

Lemma lex_item_separator ind lvl :
  lexes_strict (item_separator ind lvl) [TComma].
Proof.
  rewrite item_separator_comma. change [TComma] with ([TComma] ++ [])%list.
  apply strict_app; [apply lex_comma_literal | apply lex_newline_indent].
Qed.

(** Strings *)

Lemma feed_escape_char c acc :
  feed (LString acc) (escape_char c) = Some (LString (snoc acc c), []).
Proof.
  destruct c as [[] [] [] [] [] [] [] []]; vm_compute; reflexivity.
Qed.

Lemma lex_escape_char c acc rest :
  lex_from (LString acc) (escape_char c ++ rest)
  = lex_from (LString (snoc acc c)) rest.
Proof.
  rewrite (lex_from_feed _ _ _ _ rest (feed_escape_char c acc)).
  apply option_map_nil.
Qed.

Lemma lex_escape s : forall acc rest,
  lex_from (LString acc) (escape s ++ dq ++ rest)
  = option_map (app [TString (acc ++ s)]) (lex_from LStart rest).
Proof.
  induction s as [|c s IH]; intros acc rest; cbn [escape].
  - now rewrite append_nil_r.
  - rewrite append_assoc, lex_escape_char, IH.
    unfold snoc. now rewrite append_assoc.
Qed.

Lemma lex_string s : lexes_strict (encode_string s) [TString s].
Proof.
  intros rest. unfold encode_string.
  rewrite !append_assoc.
  change (lex_from LStart (dq ++ escape s ++ dq ++ rest))
    with (option_map (app []) (lex_from (LString "") (escape s ++ dq ++ rest))).
  now rewrite lex_escape, option_map_nil.
Qed.

(** Words *)

Lemma lex_word w t :
  word_token w = Some t ->
  feed LStart w = Some (LWord w, []) ->
  lexes w [t].
Proof.
  intros Hw Hrun rest Hr.
  rewrite (lex_from_feed _ _ _ _ rest Hrun), option_map_nil.
  destruct rest as [|c rest]; cbn.
  - now rewrite Hw.
  - destruct Hr as [_ Ha]. rewrite Ha, Hw.
    destruct (start_step c) as [[st' ts]|]; [|reflexivity].
    now destruct (lex_from st' rest).
Qed.

Lemma lex_true : lexes "true" [TTrue].
Proof. apply lex_word; vm_compute; reflexivity. Qed.

Lemma lex_false : lexes "false" [TFalse].
Proof. apply lex_word; vm_compute; reflexivity. Qed.

Lemma lex_null : lexes "null" [TNull].
Proof. apply lex_word; vm_compute; reflexivity. Qed.

(** Numbers *)

Lemma all_digits_uint d : all_digits (NilEmpty.string_of_uint d).
Proof. induction d; cbn; auto. Qed.

Lemma lex_digits ds : forall acc rest,
  all_digits ds -> delim rest ->
  lex_from (LNumber acc) (ds ++ rest)
  = match number_token (acc ++ ds) with
    | Some t => option_map (app [t]) (lex_from LStart rest)
    | None => None
    end.
Proof.
  induction ds as [|c ds IH]; intros acc rest Hd Hr.
  - rewrite append_nil_r. destruct rest as [|c rest]; cbn.
    + now destruct (number_token acc).
    + destruct Hr as [Hc _]. rewrite Hc.
      destruct (number_token acc); [|reflexivity].
      destruct (start_step c) as [[st' ts]|]; [|reflexivity].
      now destruct (lex_from st' rest).
  - destruct Hd as [Hc Hd]. cbn [append lex_from lex_step]. rewrite Hc.
    rewrite option_map_nil, IH by assumption.
    unfold snoc. now rewrite append_assoc.
Qed.

Lemma lex_number_string s t :
  number_token s = Some t ->
  match s with
  | EmptyString => False
  | String c ds =>
      start_step c = Some (LNumber (String c ""), []) /\ all_digits ds
  end ->
  lexes s [t].
Proof.
  destruct s as [|c ds]; [tauto|]. intros Ht [Hc Hd] rest Hr.
  cbn [append lex_from lex_step]. rewrite Hc, option_map_nil.
  rewrite lex_digits by assumption. cbn [append]. now rewrite Ht.
Qed.

Lemma number_token_int z : number_token (encode_int z) = Some (TNumber z).
Proof.
  unfold number_token, encode_int.
  rewrite NilZero.isi.
  - cbn. now rewrite DecimalZ.of_to.
  - destruct z; cbn; try discriminate.
    intros [= H]. now apply Unsigned.to_uint_nonnil in H.
  - destruct z; cbn; try discriminate.
    intros [= H]. now apply Unsigned.to_uint_nonnil in H.
Qed.

Lemma uint_head d :
  d <> Decimal.Nil ->
  match NilEmpty.string_of_uint d with
  | EmptyString => False
  | String c ds => is_digit c = true /\ all_digits ds
  end.
Proof.
  destruct d; try congruence; intros _; cbn; split;
    solve [reflexivity | apply all_digits_uint].
Qed.

Lemma lex_int z : lexes (encode_int z) [TNumber z].
Proof.
  apply lex_number_string; [apply number_token_int|].
  unfold encode_int.
  assert (Hu : forall d, d <> Decimal.Nil ->
            match NilZero.string_of_uint d with
            | EmptyString => False
            | String c ds =>
                start_step c = Some (LNumber (String c ""), [])
                /\ all_digits ds
            end).
  { intros d Hd. pose proof (uint_head d Hd) as H.
    destruct d; try congruence; cbn in *;
      (split; [reflexivity | apply all_digits_uint]). }
  destruct z as [|p|p]; cbn [Z.to_int NilZero.string_of_int].
  - cbn. auto.
  - apply Hu, Unsigned.to_uint_nonnil.
  - split; [reflexivity|].
    pose proof (uint_head (Pos.to_uint p) (Unsigned.to_uint_nonnil p)) as H.
    assert (Hn : NilZero.string_of_uint (Pos.to_uint p)
                 = NilEmpty.string_of_uint (Pos.to_uint p)).
    { pose proof (Unsigned.to_uint_nonnil p).
      now destruct (Pos.to_uint p). }
    rewrite Hn. apply all_digits_uint.
Qed.

(** *** Induction over values, through the containers *)

Lemma json_ind' (P : json -> Prop) :
  P JNull ->
  (forall b, P (JBool b)) ->
  (forall z, P (JInt z)) ->
  (forall s, P (JStr s)) ->
  (forall l, Forall P l -> P (JList l)) ->
  (forall d, Forall (fun kv => P (snd kv)) d -> P (JDict d)) ->
  forall j, P j.
Proof.
  intros Hn Hb Hz Hs Hl Hd.
  fix IH 1. intros [ |b|z|s|l|d].
  - exact Hn.
  - apply Hb.
  - apply Hz.
  - apply Hs.
  - apply Hl. induction l as [|x l IHl]; constructor; [apply IH | exact IHl].
  - apply Hd. induction d as [|[k v] d IHd]; constructor;
      [apply IH | exact IHd].
Qed.

(** *** The text of a value lexes to its tokens *)

Lemma dstart_item_separator ind lvl : dstart (item_separator ind lvl).
Proof. destruct ind; cbn; auto. Qed.

Lemma dstart_close ind lvl c :
  is_digit c = false -> is_alpha c = false ->
  dstart (newline_indent ind lvl ++ String c "").
Proof. destruct ind; cbn; auto. Qed.

(** The items of a container, up to and including its closing bracket. *)
Lemma lex_items (sep close : string) (tclose : token) :
  lexes_strict sep [TComma] -> dstart sep ->
  lexes_strict close [tclose] -> dstart close ->
  forall (xs : list (string * list token)),
    xs <> [] ->
    Forall (fun x => lexes (fst x) (snd x)) xs ->
    lexes_strict (String.concat sep (map fst xs) ++ close)
      (join [TComma] (map snd xs) ++ [tclose]).
Proof.
  intros Hsep Dsep Hclose Dclose xs.
  induction xs as [|x xs IH]; [congruence|]. intros _ Hall.
  inversion Hall as [|? ? Hx Hxs]; subst.
  destruct xs as [|y xs].
  - cbn. apply lexes_then; assumption.
  - change (String.concat sep (map fst (x :: y :: xs)))
      with (fst x ++ sep ++ String.concat sep (map fst (y :: xs))).
    change (join [TComma] (map snd (x :: y :: xs)))
      with (snd x ++ [TComma] ++ join [TComma] (map snd (y :: xs)))%list.
    rewrite !append_assoc, <- !List.app_assoc.
    apply lexes_then.
    + exact Hx.
    + apply strict_app; [exact Hsep|]. apply IH; [congruence | exact Hxs].
    + destruct sep; cbn in *; tauto.
Qed.

Lemma encode_list_cons ind lvl x l :
  encode ind lvl (JList (x :: l))
  = "[" ++ newline_indent ind (S lvl)
    ++ String.concat (item_separator ind (S lvl))
         (map (encode ind (S lvl)) (x :: l))
    ++ newline_indent ind lvl ++ "]".
Proof. reflexivity. Qed.

Lemma encode_dict_cons ind lvl x d :
  encode ind lvl (JDict (x :: d))
  = "{" ++ newline_indent ind (S lvl)
    ++ String.concat (item_separator ind (S lvl))
         (map (fun kv => encode_string (fst kv) ++ key_separator ind
                         ++ encode ind (S lvl) (snd kv)) (x :: d))
    ++ newline_indent ind lvl ++ "}".
Proof. reflexivity. Qed.

Lemma lex_close ind lvl c t :
  start_step c = Some (LStart, [t]) ->
  lexes_strict (newline_indent ind lvl ++ String c "") [t].
Proof.
  intros H. change [t] with ([] ++ [t])%list.
  apply strict_app; [apply lex_newline_indent | now apply lex_punct].
Qed.

Lemma lex_container ind lvl (o c : ascii) (topen tclose : token)
    (xs : list (string * list token)) :
  start_step o = Some (LStart, [topen]) ->
  start_step c = Some (LStart, [tclose]) ->
  is_digit c = false -> is_alpha c = false ->
  xs <> [] ->
  Forall (fun x => lexes (fst x) (snd x)) xs ->
  lexes_strict
    (String o "" ++ newline_indent ind (S lvl)
     ++ String.concat (item_separator ind (S lvl)) (map fst xs)
     ++ newline_indent ind lvl ++ String c "")
    (topen :: join [TComma] (map snd xs) ++ [tclose]).
Proof.
  intros Ho Hc Hcd Hca Hne Hall.
  change (topen :: join [TComma] (map snd xs) ++ [tclose])%list
    with ([topen] ++ [] ++ join [TComma] (map snd xs) ++ [tclose])%list.
  apply strict_app; [now apply lex_punct|].
  apply strict_app; [apply lex_newline_indent|].
  apply lex_items; auto.
  - apply lex_item_separator.
  - apply dstart_item_separator.
  - now apply lex_close.
  - now apply dstart_close.
Qed.

Lemma lex_encode ind j : forall lvl, lexes (encode ind lvl j) (tokens j).
Proof.
  induction j as [ |b|z|s|l IH|d IH] using json_ind'; intros lvl.
  - apply lex_null.
  - destruct b; [apply lex_true | apply lex_false].
  - apply lex_int.
  - apply strict_lexes, lex_string.
  - apply strict_lexes. destruct l as [|x l].
    + apply strict_feed. vm_compute. reflexivity.
    + rewrite encode_list_cons. cbn [tokens].
      pose (xs := map (fun j => (encode ind (S lvl) j, tokens j)) (x :: l)).
      replace (map (encode ind (S lvl)) (x :: l)) with (map fst xs)
        by (subst xs; rewrite map_map; reflexivity).
      replace (map tokens (x :: l)) with (map snd xs)
        by (subst xs; rewrite map_map; reflexivity).
      apply lex_container; try reflexivity.
      * subst xs. cbn. congruence.
      * subst xs. apply Forall_map.
        eapply Forall_impl; [|exact IH]. intros j Hj. apply Hj.
  - apply strict_lexes. destruct d as [|x d].
    + apply strict_feed. vm_compute. reflexivity.
    + rewrite encode_dict_cons. cbn [tokens].
      pose (xs := map (fun kv =>
                    (encode_string (fst kv) ++ key_separator ind
                     ++ encode ind (S lvl) (snd kv),
                     TString (fst kv) :: TColon :: tokens (snd kv)))
                  (x :: d)).
      match goal with |- lexes_strict (_ ++ _ ++ String.concat _ ?a ++ _) _ =>
        replace a with (map fst xs)
          by (subst xs; rewrite map_map; reflexivity)
      end.
      match goal with |- lexes_strict _ (_ :: join _ ?a ++ _)%list =>
        replace a with (map snd xs)
          by (subst xs; rewrite map_map; reflexivity)
      end.
      apply lex_container; try reflexivity.
      * subst xs. cbn. congruence.
      * subst xs. apply Forall_map.
        eapply Forall_impl; [|exact IH]. intros kv Hkv. cbn [fst snd].
        change (TString (fst kv) :: TColon :: tokens (snd kv))
          with ([TString (fst kv)] ++ [TColon] ++ tokens (snd kv))%list.
        apply strict_then; [apply lex_string|].
        apply strict_then; [apply lex_key_separator | apply Hkv].
Qed.

(** *** Parsing the tokens of a value gives the value back *)

Section Parse_items.

Variables (stk : list frame) (rest : list token).

(** The elements of a list that is not empty, then its closing bracket. *)
Lemma parse_elements l :
  Forall (fun j => forall stk e rest, wants_value e ->
            parse_from (Some (stk, e)) (tokens j ++ rest)
            = parse_from (reduce stk j) rest) l ->
  l <> [] ->
  forall acc e, wants_value e ->
    parse_from (Some (InList acc :: stk, e))
      (join [TComma] (map tokens l) ++ TRBracket :: rest)
    = parse_from (reduce stk (JList (acc ++ l))) rest.
Proof.
  induction l as [|x l IHl]; [congruence|]. intros Hall _ acc e He.
  inversion Hall as [|? ? Hx Hl]; subst.
  destruct l as [|y l].
  - cbn [map join]. rewrite Hx by assumption. reflexivity.
  - change (join [TComma] (map tokens (x :: y :: l)))
      with (tokens x ++ [TComma] ++ join [TComma] (map tokens (y :: l)))%list.
    rewrite <- !List.app_assoc, Hx by assumption.
    cbn [reduce List.app parse_from parse_step].
    rewrite IHl; [|assumption|congruence|now left].
    now rewrite <- List.app_assoc.
Qed.

(** The entries of an object that is not empty, then its closing brace. *)
Lemma parse_entries d :
  Forall (fun kv => forall stk e rest, wants_value e ->
            parse_from (Some (stk, e)) (tokens (snd kv) ++ rest)
            = parse_from (reduce stk (snd kv)) rest) d ->
  d <> [] ->
  forall acc e, wants_key e ->
    parse_from (Some (InDict acc None :: stk, e))
      (join [TComma]
         (map (fun kv => TString (fst kv) :: TColon :: tokens (snd kv)) d)
       ++ TRBrace :: rest)
    = parse_from (reduce stk (JDict (acc ++ d))) rest.
Proof.
  induction d as [|x d IHd]; [congruence|]. intros Hall _ acc e He.
  inversion Hall as [|? ? Hx Hd]; subst.
  assert (Hkey : forall ts,
    parse_from (Some (InDict acc None :: stk, e))
      (TString (fst x) :: TColon :: ts)
    = parse_from (Some (InDict acc (Some (fst x)) :: stk, EValue)) ts).
  { intros ts. destruct He as [-> | ->]; reflexivity. }
  destruct d as [|y d].
  - cbn [map join List.app]. rewrite Hkey, Hx by now left.
    cbn [reduce parse_from parse_step]. now destruct x.
  - change (join [TComma]
              (map (fun kv => TString (fst kv) :: TColon :: tokens (snd kv))
                 (x :: y :: d)))
      with ((TString (fst x) :: TColon :: tokens (snd x)) ++ [TComma]
            ++ join [TComma]
                 (map (fun kv => TString (fst kv) :: TColon :: tokens (snd kv))
                    (y :: d)))%list.
    rewrite <- !List.app_assoc. cbn [List.app].
    rewrite Hkey, Hx by now left.
    cbn [reduce List.app parse_from parse_step].
    rewrite IHd; [|assumption|congruence|now left].
    rewrite <- List.app_assoc. now destruct x.
Qed.

End Parse_items.

Lemma parse_tokens j : forall stk e rest,
  wants_value e ->
  parse_from (Some (stk, e)) (tokens j ++ rest) = parse_from (reduce stk j) rest.
Proof.
  induction j as [ |b|z|s|l IH|d IH] using json_ind'; intros stk e rest He.
  - destruct He as [-> | ->]; reflexivity.
  - destruct He as [-> | ->]; destruct b; reflexivity.
  - destruct He as [-> | ->]; reflexivity.
  - destruct He as [-> | ->]; reflexivity.
  - cbn [tokens]. rewrite <- List.app_comm_cons, <- List.app_assoc.
    cbn [List.app].
    assert (Hopen : forall ts,
      parse_from (Some (stk, e)) (TLBracket :: ts)
      = parse_from (Some (InList [] :: stk, EValueOrEnd)) ts).
    { intros ts. destruct He as [-> | ->]; reflexivity. }
    rewrite Hopen. destruct l as [|x l].
    + reflexivity.
    + apply (parse_elements stk rest (x :: l) IH); [congruence | now right].
  - cbn [tokens]. rewrite <- List.app_comm_cons, <- List.app_assoc.
    cbn [List.app].
    assert (Hopen : forall ts,
      parse_from (Some (stk, e)) (TLBrace :: ts)
      = parse_from (Some (InDict [] None :: stk, EKeyOrEnd)) ts).
    { intros ts. destruct He as [-> | ->]; reflexivity. }
    rewrite Hopen. destruct d as [|x d].
    + reflexivity.
    + apply (parse_entries stk rest (x :: d) IH); [congruence | now right].
Qed.

(** The reader gives back the value the encoder was given, whatever the
    indentation. *)
Lemma parse_encode ind lvl j : parse (encode ind lvl j) = Some j.
Proof.
  unfold parse, lex.
  rewrite <- (append_nil_r (encode ind lvl j)).
  rewrite (lex_encode ind j lvl "" I). cbn [lex_from lex_finish option_map].
  rewrite parse_tokens by now left. reflexivity.
Qed.

(* ================================================================= *)
(** ** [write_results] as a whole *)

Lemma write_results_denied rt p pretty kw w :
  mem p (w_denied w) = true ->
  write_results rt (Path p) pretty kw w = (Raise IOError, w).
Proof.
  intros H. unfold write_results. rewrite bind_assoc.
  unfold open. rewrite !bind_assoc. run. now rewrite H.
Qed.

(** On a sink that is closed, or does not take text, the stream cannot be
    built: the constructor raises and the block is not entered. *)
Lemma write_results_refused rt fd pretty kw w :
  usable w (Sink fd) = false ->
  write_results rt (Sink fd) pretty kw w
  = (Raise (refusal w fd),
     set_streams
       (w_streams w ++ [mkStream fd false (indent_of pretty) pretty false false])
       w).
Proof.
  intros H. unfold write_results. run.
  unfold Stream. rewrite !bind_assoc. run. rewrite !bind_assoc. run.
  rewrite !bind_assoc. unfold fd_write at 1. rewrite !bind_assoc. run.
  unfold usable, refusal, is_open, accepts in *.
  replace (fst (if pretty then (Some 2, true) else (None, false)))
    with (indent_of pretty) by now destruct pretty.
  replace (snd (if pretty then (Some 2, true) else (None, false)))
    with pretty by now destruct pretty.
  destruct (nth_error (w_files w) fd) as [f|]; [|reflexivity].
  destruct (f_closed f); [reflexivity|].
  destruct (f_accepts f); [discriminate | reflexivity].
Qed.

Lemma write_results_usable rt d pretty kw w :
  usable w d = true ->
  write_results rt d pretty kw w
  = (outcome (w_codebase w) kw, after_write rt d pretty kw w).
Proof.
  destruct w as [c fs den ms ss tr]. intros H.
  unfold write_results, after_write.
  destruct d as [p|fd]; cbn [usable w_denied] in H; proj.
  - rewrite bind_assoc. unfold open. rewrite !bind_assoc. run.
    apply negb_true_iff in H. rewrite H. rewrite !bind_assoc. run.
    rewrite (block_open rt c fs [] den kw pretty).
    cbn [target opening w_files]. f_equal. f_equal.
    now rewrite <- List.app_assoc.
  - run. unfold is_open, accepts in H. cbn [w_files] in H.
    destruct (nth_error fs fd) as [f|] eqn:Hf; [|discriminate].
    destruct f as [d0 cl ac]. cbn in H. destruct cl, ac; try discriminate.
    destruct (nth_error_split _ _ Hf) as (pre & post & -> & <-).
    rewrite block_open. rewrite update_nth_mid.
    cbn [target opening List.app owned f_data f_closed f_accepts].
    reflexivity.
Qed.

(** The text of a run is the encoding of one object: its entries. *)
Lemma entries_text_concat pretty es : forall x,
  x ++ entries_text (indent_of pretty) pretty true es
  = String.concat (item_separator (indent_of pretty) 1)
      (x :: map (fun kv => encode_string (fst kv)
                           ++ key_separator (indent_of pretty)
                           ++ encode (indent_of pretty) 1 (snd kv)) es).
Proof.
  induction es as [|e es IH]; intros x.
  - cbn. apply append_nil_r.
  - cbn [entries_text map]. unfold entry_text.
    replace (if pretty then indent_of pretty else None) with (indent_of pretty)
      by now destruct pretty.
    change (String.concat ?sep (x :: ?y :: ?l))
      with (x ++ sep ++ String.concat sep (y :: l)).
    rewrite <- IH, item_separator_comma.
    now rewrite !append_assoc.
Qed.

Lemma written_text_encode pretty c kw :
  written_text pretty c kw
  = encode (indent_of pretty) 0 (JDict (written_entries c kw)).
Proof.
  unfold written_text, written_entries. rewrite encode_dict_cons.
  cbn [entries_text]. unfold entry_text at 1.
  replace (if pretty then indent_of pretty else None) with (indent_of pretty)
    by now destruct pretty.
  cbn [map fst snd].
  rewrite <- entries_text_concat. cbn [fst snd append].
  now rewrite !append_assoc.
Qed.

Lemma parse_written_text pretty c kw :
  parse (written_text pretty c kw) = Some (JDict (written_entries c kw)).
Proof. rewrite written_text_encode. apply parse_encode. Qed.

(* ================================================================= *)
(** ** [get_results] as a whole *)

Lemma get_results_spec rt as_list kw w :
  get_results rt as_list kw w = (got rt as_list kw w, after_get rt as_list kw w).
Proof.
  destruct w as [c fs den ms ss tr].
  unfold get_results, got, after_get.
  unfold add_files_count_to_current_header. rewrite !bind_assoc. run.
  rewrite !bind_assoc. run.
  unfold get_headers. rewrite !bind_assoc. run. rewrite !bind_assoc. run.
  unfold get_attributes. rewrite !bind_assoc. run.
  fold (injected c).
  set (b := match attributes c with Some _ => _ | None => _ end).
  assert (Hb : b = results_base c).
  { subst b. unfold results_base, attribute_items.
    now destruct (attributes c). }
  clearbody b. subst b.
  unfold get_files. repeat (rewrite bind_assoc || run).
  change (map (fun r => r kw) (resources (injected c))) with (records c kw).
  unfold TRACE.
  destruct rt, as_list; cbn [py3 negb orb]; repeat (rewrite bind_assoc || run);
    try (unfold bind at 1; rewrite list_lazy;
         destruct (failure (records c kw));
         [| run; unfold list_; run]);
    unfold ret;
    repeat (rewrite <- !List.app_assoc; cbn [List.app]);
    rewrite ?List.app_nil_r; reflexivity.
Qed.

(* ================================================================= *)
(** ** Observations on the world a run leaves *)

Lemma nth_error_update_nth_other {A} (f : A -> A) (l : list A) : forall i k,
  i <> k -> nth_error (update_nth i f l) k = nth_error l k.
Proof.
  induction l as [|x l IH]; intros [|i] [|k] H; cbn; try reflexivity;
    try congruence.
  apply IH. congruence.
Qed.

Lemma nth_error_update_nth_same {A} (f : A -> A) (l : list A) : forall i,
  nth_error (update_nth i f l) i = option_map f (nth_error l i).
Proof.
  induction l as [|x l IH]; intros [|i]; cbn; try reflexivity. apply IH.
Qed.

Lemma length_update_nth {A} (f : A -> A) (l : list A) : forall i,
  List.length (update_nth i f l) = List.length l.
Proof.
  induction l as [|x l IH]; intros [|i]; cbn; try reflexivity.
  now rewrite IH.
Qed.

Lemma sink_data_target rt d pretty kw w :
  usable w d = true ->
  sink_data (after_write rt d pretty kw w) (target w d)
  = Some (before w d ++ written_text pretty (w_codebase w) kw).
Proof.
  intros H. unfold sink_data, after_write. proj.
  destruct d as [p|fd]; cbn [target before].
  - now rewrite nth_error_last.
  - rewrite nth_error_update_nth_same. cbn in H. unfold is_open in H.
    unfold sink_data. destruct (nth_error (w_files w) fd); [|discriminate].
    reflexivity.
Qed.

Lemma sink_data_other rt d pretty kw w fd :
  fd <> target w d ->
  sink_data (after_write rt d pretty kw w) fd = sink_data w fd.
Proof.
  intros H. unfold sink_data, after_write. proj.
  destruct d as [p|fd']; cbn [target] in H.
  - f_equal. destruct (Nat.lt_ge_cases fd (List.length (w_files w))) as [L|L].
    + now rewrite nth_error_app1.
    + rewrite (proj2 (nth_error_None _ _)) by (rewrite length_app; cbn; lia).
      symmetry. apply nth_error_None. lia.
  - now rewrite nth_error_update_nth_other by congruence.
Qed.

Lemma usable_target_lt rt d pretty kw w :
  usable w d = true ->
  target w d < List.length (w_files (after_write rt d pretty kw w)).
Proof.
  intros H. unfold after_write. proj. destruct d as [p|fd]; cbn [target].
  - rewrite length_app. cbn. lia.
  - rewrite length_update_nth. cbn in H. unfold is_open in H.
    destruct (nth_error (w_files w) fd) eqn:E; [|discriminate].
    apply nth_error_Some. congruence.
Qed.

(** Counting events *)

Lemma count_app p a b : count p (a ++ b) = count p a + count p b.
Proof. unfold count. now rewrite filter_app, length_app. Qed.

Lemma count_repeat_next p m n :
  count p (repeat (EvNext m) n) = if p (EvNext m) then n else 0.
Proof.
  unfold count. induction n as [|n IH]; cbn.
  - now destruct (p (EvNext m)).
  - destruct (p (EvNext m)); cbn; [now rewrite IH | exact IH].
Qed.

Lemma count_entries_events p fd ind pr es : forall cm,
  (forall t, p (EvFdWrite fd t) = false) ->
  count p (entries_events fd ind pr cm es)
  = count p (map (fun kv => EvEntry (fst kv) (Concrete (snd kv))) es).
Proof.
  induction es as [|e es IH]; intros cm Hw; [reflexivity|].
  cbn [entries_events map]. rewrite count_app, IH by assumption.
  unfold entry_events. unfold count at 1 3. cbn [filter].
  rewrite filter_app. cbn [filter]. rewrite !Hw.
  destruct cm; cbn [filter]; rewrite ?Hw; cbn [List.app];
    destruct (p (EvEntry (fst e) (Concrete (snd e)))); cbn; reflexivity.
Qed.

Lemma count_none p l : (forall e, In e l -> p e = false) -> count p l = 0.
Proof.
  unfold count. induction l as [|x l IH]; intros H; [reflexivity|].
  cbn. rewrite (H x) by now left. apply IH. intros e He. apply H. now right.
Qed.

Lemma count_entries_none p fd ind pr cm es :
  (forall t, p (EvFdWrite fd t) = false) ->
  (forall k v, p (EvEntry k v) = false) ->
  count p (entries_events fd ind pr cm es) = 0.
Proof.
  intros Hw He. rewrite count_entries_events by assumption.
  apply count_none. intros e Hin. apply in_map_iff in Hin.
  destruct Hin as (kv & <- & _). apply He.
Qed.

(** Counting, in the events of a run, events that are neither writes nor
    entries nor reads of the sequence. *)
Lemma count_written p fd (cfd : bool) pretty c kw m :
  (forall t, p (EvFdWrite fd t) = false) ->
  (forall k v, p (EvEntry k v) = false) ->
  p (EvNext m) = false -> p (EvGetFiles m) = false ->
  count p (written_events fd cfd pretty c kw m)
  = Nat.b2n (p EvAddFilesCount) + Nat.b2n (p EvGetHeaders)
    + Nat.b2n (cfd && p (EvFdClose fd)).
Proof.
  intros Hw He Hn Hg. unfold written_events.
  rewrite !count_app, count_repeat_next, Hn.
  rewrite !count_entries_none by assumption.
  unfold count. cbn [filter]. rewrite !Hw, Hg.
  destruct (p EvAddFilesCount), (p EvGetHeaders), cfd; cbn [filter];
    try destruct (p (EvFdClose fd)); reflexivity.
Qed.

(** The sequence *)

Lemma yielded_all items :
  failure items = None ->
  List.length (yielded items) = List.length items /\ unread items = []
  /\ pulls items = List.length items.
Proof.
  unfold pulls. induction items as [|[r|e] items IH]; cbn; intros H.
  - auto.
  - destruct (IH H) as (A & B & C). rewrite H in *. repeat split; auto; lia.
  - discriminate.
Qed.

Lemma length_records c kw :
  List.length (records c kw) = List.length (resources c).
Proof. apply length_map. Qed.

(** The mapping operations *)

Lemma dict_get_set {V} k (v : V) d : dict_get k (dict_set k v d) = Some v.
Proof.
  induction d as [|[k' v'] d IH]; cbn.
  - now rewrite String.eqb_refl.
  - destruct (String.eqb k' k) eqn:E; cbn; rewrite E; [reflexivity | exact IH].
Qed.

Lemma dict_set_idem {V} k (v : V) d :
  dict_set k v (dict_set k v d) = dict_set k v d.
Proof.
  induction d as [|[k' v'] d IH]; cbn.
  - now rewrite String.eqb_refl.
  - destruct (String.eqb k' k) eqn:E; cbn; rewrite E; [reflexivity|].
    now rewrite IH.
Qed.

Lemma dict_set_new {V} k (v : V) d :
  ~ In k (keys d) -> dict_set k v d = (d ++ [(k, v)])%list.
Proof.
  induction d as [|[k' v'] d IH]; cbn; intros H; [reflexivity|].
  destruct (String.eqb_spec k' k) as [->|N]; [tauto|].
  rewrite IH; tauto.
Qed.

Lemma dict_update_new {V} (o : list (string * V)) : forall d,
  NoDup (keys o) -> (forall k, In k (keys o) -> ~ In k (keys d)) ->
  dict_update d o = (d ++ o)%list.
Proof.
  unfold dict_update.
  induction o as [|[k v] o IH]; intros d Hn Hd; cbn.
  - now rewrite List.app_nil_r.
  - inversion Hn as [|? ? Hk Hn']; subst.
    rewrite dict_set_new by (apply Hd; now left).
    rewrite IH; [now rewrite <- List.app_assoc | assumption |].
    intros k' Hk'. unfold keys. rewrite map_app, in_app_iff. cbn.
    intros [H|[H|[]]].
    + now apply (Hd k'); [right|].
    + subst. contradiction.
Qed.

Lemma injected_idem c : injected (injected c) = injected c.
Proof. unfold injected. cbn. now rewrite dict_set_idem. Qed.

Lemma written_text_injected pretty c kw :
  written_text pretty (injected c) kw = written_text pretty c kw.
Proof.
  unfold written_text, written_entries. rewrite injected_idem. reflexivity.
Qed.

(* ================================================================= *)
(** * The emitted document *)

(** What a usable sink holds after a run: what it held, then the encoding
    of the entries written. *)
Lemma emitted rt d pretty kw w :
  usable w d = true ->
  fst (write_results rt d pretty kw w) = outcome (w_codebase w) kw
  /\ sink_data (snd (write_results rt d pretty kw w)) (target w d)
     = Some (before w d ++ written_text pretty (w_codebase w) kw)
  /\ parse (written_text pretty (w_codebase w) kw)
     = Some (JDict (written_entries (w_codebase w) kw))
  /\ lex (written_text pretty (w_codebase w) kw)
     = Some (tokens (JDict (written_entries (w_codebase w) kw))).
Proof.
  intros H. rewrite write_results_usable by assumption. cbn [fst snd].
  repeat split.
  - now apply sink_data_target.
  - apply parse_written_text.
  - rewrite written_text_encode. unfold lex.
    rewrite <- (append_nil_r (encode _ _ _)).
    rewrite (lex_encode _ _ _ "" I). cbn. now rewrite List.app_nil_r.
Qed.

Lemma keys_app {V} (a b : list (string * V)) :
  keys (a ++ b) = (keys a ++ keys b)%list.
Proof. apply map_app. Qed.

(** C1: the document a run leaves on a usable sink parses to an object
    whose keys are, in this order, [headers], the attribute keys in the
    order of the attributes mapping, and [files]; no other key is written.
    (When the file-record sequence raises, the entries written stop before
    [files].) *)
Theorem write_results_key_order rt d pretty kw w :
  usable w d = true ->
  exists text entries,
    sink_data (snd (write_results rt d pretty kw w)) (target w d)
    = Some (before w d ++ text)
    /\ parse text = Some (JDict entries)
    /\ keys entries
       = ("headers" :: keys (attribute_items (w_codebase w))
          ++ match fst (write_results rt d pretty kw w) with
             | Ret _ => ["files"]
             | Raise _ => []
             end)%list.
Proof.
  intros H. destruct (emitted rt d pretty kw w H) as (Hr & Hd & Hp & _).
  exists (written_text pretty (w_codebase w) kw),
         (written_entries (w_codebase w) kw).
  repeat split; try assumption.
  rewrite Hr. unfold written_entries, outcome, files_entry.
  cbn [keys map fst]. fold (@keys json). f_equal.
  change (map fst ?l) with (keys l). rewrite keys_app.
  now destruct (failure (records (w_codebase w) kw)).
Qed.

Lemma write_results_key_order_witness :
  usable scenario_world (Sink 0) = true
  /\ exists text entries,
       sink_data (snd (write_results Py3 (Sink 0) false [] scenario_world)) 0
       = Some text
       /\ parse text = Some (JDict entries)
       /\ keys entries = ["headers"; "files"].
Proof.
  split; [reflexivity|].
  exact (write_results_key_order Py3 (Sink 0) false [] scenario_world
           eq_refl).
Defined.



(* ================================================================= *)
(** * The file count *)





(** A codebase without resources: the count written is 0 and the array is
    empty. *)
Example file_count_zero :
  let c := mkCodebase [("tool_version", JStr "1.0")] None [] 0 in
  let w := mkWorld c [mkFile "" false true] [] [] [] [] in
  counts_records c
  /\ sink_data (snd (write_results Py3 (Sink 0) false [] w)) 0
     = Some (quoted "{'headers': {'tool_version': '1.0', 'files_count': 0}, 'files': []}").
Proof. vm_compute. split; reflexivity. Qed.

(* ================================================================= *)
(** * Closing the sink *)

Lemma count_close_written fd' fd (cfd : bool) pretty c kw m :
  count (is_close fd') (written_events fd cfd pretty c kw m)
  = if cfd && Nat.eqb fd' fd then 1 else 0.
Proof.
  rewrite count_written by reflexivity. cbn [is_close Nat.b2n Nat.add].
  now destruct (cfd && Nat.eqb fd' fd).
Qed.

(** What a write by the caller comes to depends on the file object only. *)
Lemma fd_write_outcome fd text w :
  fst (fd_write fd text w)
  = if is_open w fd
    then if accepts w fd then Ret tt else Raise TypeError
    else Raise ValueError.
Proof.
  unfold fd_write, is_open, accepts. run.
  destruct (nth_error (w_files w) fd) as [f|]; [|reflexivity].
  destruct (f_closed f); [reflexivity|]. now destruct (f_accepts f).
Qed.

Lemma is_open_after_write rt fd pretty kw w :
  is_open (after_write rt (Sink fd) pretty kw w) fd = is_open w fd.
Proof.
  unfold is_open, after_write. proj. rewrite nth_error_update_nth_same.
  now destruct (nth_error (w_files w) fd).
Qed.

Lemma accepts_after_write rt fd pretty kw w :
  accepts (after_write rt (Sink fd) pretty kw w) fd = accepts w fd.
Proof.
  unfold accepts, after_write. proj. rewrite nth_error_update_nth_same.
  now destruct (nth_error (w_files w) fd).
Qed.

(** C4: a sink opened from a path is closed exactly once, whatever the
    outcome of the run, and no other sink is closed; a sink given by the
    caller is never closed: it is as open after the run as before, a write
    by the caller comes to what it would have come to before the run, and
    when the sink was usable the caller can still write to it. *)
Theorem sink_closed_exactly_once rt d pretty kw w :
  exists evs,
    w_trace (snd (write_results rt d pretty kw w)) = (w_trace w ++ evs)%list
    /\ match d with
       | Path p =>
           if mem p (w_denied w)
           then fst (write_results rt d pretty kw w) = Raise IOError
                /\ snd (write_results rt d pretty kw w) = w
           else (forall fd, count (is_close fd) evs
                            = if Nat.eqb fd (target w d) then 1 else 0)
                /\ is_closed (snd (write_results rt d pretty kw w))
                     (target w d) = true
                /\ List.length (w_files (snd (write_results rt d pretty kw w)))
                   = S (List.length (w_files w))
       | Sink fd =>
           (forall fd', count (is_close fd') evs = 0)
           /\ is_open (snd (write_results rt d pretty kw w)) fd = is_open w fd
           /\ (forall text,
                 fst (fd_write fd text (snd (write_results rt d pretty kw w)))
                 = fst (fd_write fd text w))
           /\ (usable w d = true ->
               forall text,
                 fst (fd_write fd text (snd (write_results rt d pretty kw w)))
                 = Ret tt)
       end.
Proof.
  destruct d as [p|fd].
  - destruct (mem p (w_denied w)) eqn:Hm.
    + rewrite write_results_denied by assumption. exists [].
      now rewrite List.app_nil_r.
    + rewrite write_results_usable by (cbn; now rewrite Hm). cbn [snd].
      eexists. split; [reflexivity|]. split; [|split].
      * intros fd. cbn [opening]. rewrite count_app, count_close_written.
        cbn [owned andb]. reflexivity.
      * unfold is_closed, after_write. proj. cbn [target].
        now rewrite nth_error_last.
      * unfold after_write. proj. rewrite length_app. cbn. lia.
  - destruct (usable w (Sink fd)) eqn:Hu.
    + rewrite write_results_usable by assumption. cbn [snd].
      eexists. split; [reflexivity|].
      split; [|split; [|split]].
      * intros fd'. cbn [opening List.app]. now rewrite count_close_written.
      * apply is_open_after_write.
      * intros text. rewrite !fd_write_outcome.
        now rewrite is_open_after_write, accepts_after_write.
      * intros _ text. rewrite fd_write_outcome.
        rewrite is_open_after_write, accepts_after_write.
        cbn [usable] in Hu. apply andb_true_iff in Hu.
        destruct Hu as [-> ->]. reflexivity.
    + rewrite write_results_refused by assumption. cbn [snd].
      exists []. split; [now rewrite List.app_nil_r|].
      split; [reflexivity|]. split; [reflexivity|].
      split; [|discriminate].
      intros text. now rewrite !fd_write_outcome.
Qed.

(** The same on a run that raises partway: the sequence fails at its second
    record, the exception reaches the caller, and the sink opened from the
    path was closed once. *)
Example closed_once_when_raising :
  let run := write_results Py3 (Path "scan.json") false [] broken_world in
  fst run = Raise CollaboratorError
  /\ count (is_close 1) (w_trace (snd run)) = 1
  /\ is_closed (snd run) 1 = true
  /\ sink_data (snd run) 1
     = Some (quoted "{'headers': {'tool_version': '1.0', 'files_count': 3}}").
Proof. vm_compute. auto. Qed.

(* ================================================================= *)
(** * Writing twice, and the two render modes *)

Lemma written_text_nonempty pretty c kw : written_text pretty c kw <> "".
Proof. unfold written_text. cbn. discriminate. Qed.

(** C5: two runs in the same render mode, one after the other on a
    codebase nothing else touched, each on a sink nothing was written to,
    leave the same bytes on the two sinks (and end the same way). *)
Theorem write_twice_same_bytes rt d1 d2 pretty kw w :
  fresh w d1 = true ->
  fresh (snd (write_results rt d1 pretty kw w)) d2 = true ->
  exists text,
    sink_data
      (snd (write_results rt d2 pretty kw
              (snd (write_results rt d1 pretty kw w))))
      (target w d1) = Some text
    /\ sink_data
         (snd (write_results rt d2 pretty kw
                 (snd (write_results rt d1 pretty kw w))))
         (target (snd (write_results rt d1 pretty kw w)) d2) = Some text
    /\ fst (write_results rt d2 pretty kw
              (snd (write_results rt d1 pretty kw w)))
       = fst (write_results rt d1 pretty kw w).
Proof.
  unfold fresh. intros H1 H2.
  apply andb_true_iff in H1. destruct H1 as [U1 B1].
  apply String.eqb_eq in B1.
  rewrite (write_results_usable rt d1) in * by assumption. cbn [fst snd] in *.
  set (w1 := after_write rt d1 pretty kw w) in *.
  apply andb_true_iff in H2. destruct H2 as [U2 B2].
  apply String.eqb_eq in B2.
  rewrite (write_results_usable rt d2) by assumption. cbn [fst snd].
  assert (D1 : sink_data w1 (target w d1)
               = Some (written_text pretty (w_codebase w) kw)).
  { subst w1. rewrite sink_data_target by assumption. now rewrite B1. }
  assert (Hne : target w d1 <> target w1 d2).
  { destruct d2 as [p|fd]; cbn [target].
    - pose proof (usable_target_lt rt d1 pretty kw w U1). fold w1 in H. lia.
    - intros E. cbn [before] in B2. rewrite <- E, D1 in B2.
      now apply written_text_nonempty in B2. }
  exists (written_text pretty (w_codebase w) kw). split; [|split].
  - now rewrite sink_data_other by assumption.
  - rewrite sink_data_target, B2 by assumption. cbn [append].
    subst w1. unfold after_write at 1. proj.
    now rewrite written_text_injected.
  - reflexivity.
Qed.

Lemma write_twice_same_bytes_witness :
  fresh scenario_world (Path "one.json") = true
  /\ fresh (snd (write_results Py3 (Path "one.json") true [] scenario_world))
       (Path "two.json") = true
  /\ exists text,
       sink_data
         (snd (write_results Py3 (Path "two.json") true []
                 (snd (write_results Py3 (Path "one.json") true []
                         scenario_world)))) 1 = Some text
       /\ sink_data
            (snd (write_results Py3 (Path "two.json") true []
                    (snd (write_results Py3 (Path "one.json") true []
                            scenario_world)))) 2 = Some text
       /\ fst (write_results Py3 (Path "two.json") true []
                 (snd (write_results Py3 (Path "one.json") true []
                         scenario_world)))
          = fst (write_results Py3 (Path "one.json") true [] scenario_world).
Proof.
  split; [reflexivity|]. split; [reflexivity|].
  exact (write_twice_same_bytes Py3 (Path "one.json") (Path "two.json") true
           [] scenario_world eq_refl eq_refl).
Defined.

(** C6: the compact and the pretty document of one codebase parse to the
    same value; the two texts have the same tokens, so they differ in the
    white space between tokens only. *)
Theorem compact_and_pretty_parse_alike rt d1 d2 kw w :
  usable w d1 = true ->
  usable w d2 = true ->
  exists compact pretty doc,
    sink_data (snd (write_results rt d1 false kw w)) (target w d1)
    = Some (before w d1 ++ compact)
    /\ sink_data (snd (write_results rt d2 true kw w)) (target w d2)
       = Some (before w d2 ++ pretty)
    /\ parse compact = Some doc
    /\ parse pretty = Some doc
    /\ lex compact = lex pretty.
Proof.
  intros H1 H2.
  destruct (emitted rt d1 false kw w H1) as (_ & D1 & P1 & L1).
  destruct (emitted rt d2 true kw w H2) as (_ & D2 & P2 & L2).
  exists (written_text false (w_codebase w) kw),
         (written_text true (w_codebase w) kw),
         (JDict (written_entries (w_codebase w) kw)).
  repeat split; try assumption. now rewrite L1, L2.
Qed.

Lemma compact_and_pretty_parse_alike_witness :
  usable scenario_world (Sink 0) = true
  /\ usable scenario_world (Path "pretty.json") = true
  /\ exists compact pretty doc,
       sink_data (snd (write_results Py3 (Sink 0) false [] scenario_world)) 0
       = Some compact
       /\ sink_data
            (snd (write_results Py3 (Path "pretty.json") true []
                    scenario_world)) 1
          = Some pretty
       /\ parse compact = Some doc
       /\ parse pretty = Some doc
       /\ lex compact = lex pretty.
Proof.
  split; [reflexivity|]. split; [reflexivity|].
  exact (compact_and_pretty_parse_alike Py3 (Sink 0) (Path "pretty.json") []
           scenario_world eq_refl eq_refl).
Defined.

(** X11: when both plugins run on one codebase, the compact one first, the
    two documents parse to the same value: the injection of the first run
    does not change what the second one writes. *)
Lemma compact_then_pretty rt d1 d2 kw w :
  usable w d1 = true ->
  usable (snd (JsonCompactOutput_process_codebase rt d1 kw w)) d2 = true ->
  exists compact pretty doc,
    sink_data (snd (JsonCompactOutput_process_codebase rt d1 kw w))
      (target w d1)
    = Some (before w d1 ++ compact)
    /\ sink_data
         (snd (JsonPrettyOutput_process_codebase rt d2 kw
                 (snd (JsonCompactOutput_process_codebase rt d1 kw w))))
         (target (snd (JsonCompactOutput_process_codebase rt d1 kw w)) d2)
       = Some (before (snd (JsonCompactOutput_process_codebase rt d1 kw w)) d2
               ++ pretty)
    /\ parse compact = Some doc
    /\ parse pretty = Some doc.
Proof.
  unfold JsonCompactOutput_process_codebase, JsonPrettyOutput_process_codebase.
  intros H1 H2.
  destruct (emitted rt d1 false kw w H1) as (_ & D1 & P1 & _).
  destruct (emitted rt d2 true kw _ H2) as (_ & D2 & P2 & _).
  assert (Hc : w_codebase (snd (write_results rt d1 false kw w))
               = injected (w_codebase w)).
  { now rewrite write_results_usable by assumption. }
  rewrite Hc, written_text_injected in D2.
  exists (written_text false (w_codebase w) kw),
         (written_text true (w_codebase w) kw),
         (JDict (written_entries (w_codebase w) kw)).
  repeat split; try assumption. apply parse_written_text.
Qed.

(** C7: when a write completes, the last entry of the document is [files]
    and its value is an array; a sequence without records gives the text of
    an empty array, and a codebase without attributes object gives a
    document with the two keys [headers] and [files] only. *)
Theorem files_always_array rt d pretty kw w :
  usable w d = true ->
  fst (write_results rt d pretty kw w) = Ret tt ->
  exists text hs rs,
    sink_data (snd (write_results rt d pretty kw w)) (target w d)
    = Some (before w d ++ text)
    /\ parse text
       = Some (JDict (("headers", hs) :: attribute_items (w_codebase w)
                      ++ [("files", JList rs)]))
    /\ (records (w_codebase w) kw = [] ->
        rs = []
        /\ exists prefix,
             text = prefix ++ item_separator (indent_of pretty) 1
                    ++ encode_string "files"
                    ++ key_separator (indent_of pretty) ++ "[]"
                    ++ newline_indent (indent_of pretty) 0 ++ "}")
    /\ (attributes (w_codebase w) = None ->
        parse text = Some (JDict [("headers", hs); ("files", JList rs)])).
Proof.
  intros H Hok. destruct (emitted rt d pretty kw w H) as (Hr & Hd & Hp & _).
  rewrite Hr in Hok. unfold outcome in Hok.
  destruct (failure (records (w_codebase w) kw)) eqn:Hf; [discriminate|].
  assert (He : written_entries (w_codebase w) kw
               = ("headers", JDict (headers (injected (w_codebase w))))
                 :: attribute_items (w_codebase w)
                 ++ [("files", JList (yielded (records (w_codebase w) kw)))]).
  { unfold written_entries, files_entry. now rewrite Hf. }
  exists (written_text pretty (w_codebase w) kw),
         (JDict (headers (injected (w_codebase w)))),
         (yielded (records (w_codebase w) kw)).
  split; [exact Hd|]. split; [now rewrite Hp, He|]. split.
  - intros Hnil. rewrite Hnil. split; [reflexivity|].
    unfold written_text. rewrite He, Hnil.
    cbn [yielded entries_text fst snd].
    rewrite entries_text_app. cbn [entries_text fst snd].
    replace (match attribute_items (w_codebase w) with
             | [] | _ => true
             end) with true by now destruct (attribute_items (w_codebase w)).
    exists ("{" ++ entry_text (indent_of pretty) pretty false "headers"
                     (JDict (headers (injected (w_codebase w))))
            ++ entries_text (indent_of pretty) pretty true
                 (attribute_items (w_codebase w))).
    unfold entry_text at 2.
    replace (encode (if pretty then indent_of pretty else None) 1 (JList []))
      with "[]" by now destruct pretty.
    rewrite item_separator_comma, !append_assoc. reflexivity.
  - intros Hnone. rewrite Hp, He. unfold attribute_items. now rewrite Hnone.
Qed.

Lemma files_always_array_witness :
  let c := mkCodebase [("tool_version", JStr "1.0")] None [] 0 in
  let w := mkWorld c [mkFile "" false true] [] [] [] [] in
  usable w (Sink 0) = true
  /\ fst (write_results Py3 (Sink 0) false [] w) = Ret tt
  /\ exists text hs rs,
       sink_data (snd (write_results Py3 (Sink 0) false [] w)) 0 = Some text
       /\ parse text = Some (JDict [("headers", hs); ("files", JList rs)])
       /\ (@nil item = [] ->
           rs = []
           /\ exists prefix, text = prefix ++ quoted ", 'files': []}")
       /\ (@None (list (string * json)) = None ->
           parse text = Some (JDict [("headers", hs); ("files", JList rs)])).
Proof.
  intros c w. split; [reflexivity|]. split; [reflexivity|].
  exact (files_always_array Py3 (Sink 0) false [] w eq_refl eq_refl).
Defined.

(* ================================================================= *)
(** * The value-producing operation *)

Lemma keys_results_base c :
  NoDup (keys (attribute_items c)) ->
  ~ In "headers" (keys (attribute_items c)) ->
  results_base c
  = (("headers", Concrete (JDict (headers (injected c))))
     :: map (fun kv => (fst kv, Concrete (snd kv))) (attribute_items c)).
Proof.
  intros Hn Hh. unfold results_base.
  assert (Hk : keys (map (fun kv : string * json => (fst kv, Concrete (snd kv)))
                       (attribute_items c))
               = keys (attribute_items c)).
  { unfold keys. rewrite map_map. reflexivity. }
  rewrite dict_update_new; [reflexivity | now rewrite Hk |].
  rewrite Hk. intros k Hin [E|[]]. cbn in E. now subst.
Qed.

(** C8, as stated, fails: an attribute named [files] keeps its place in
    the mapping, so [files] is not the last key. *)
Lemma get_results_keys_counterexample :
  exists results,
    fst (get_results Py3 false [] clash_world) = Ret results
    /\ keys results = ["headers"; "files"; "summary"]
    /\ keys results
       <> ("headers" :: keys (attribute_items clash_codebase) ++ ["files"])%list.
Proof.
  eexists. split; [vm_compute; reflexivity|]. split; [reflexivity|].
  vm_compute. discriminate.
Qed.

(** C8, amended: when no attribute is named [headers] or [files] (the
    attribute keys being distinct, as the keys of a mapping are), the
    mapping returned has the keys [headers], the attribute keys in their
    order, [files]; its [files] value is the lazy sequence itself, nothing
    of it consumed, when [as_list] is false on Python 3, and the list of
    all the records when [as_list] is true (on Python 2 the sequence is a
    list from the start). *)
Theorem get_results_mapping rt as_list kw w :
  NoDup (keys (attribute_items (w_codebase w))) ->
  ~ In "headers" (keys (attribute_items (w_codebase w))) ->
  ~ In "files" (keys (attribute_items (w_codebase w))) ->
  (negb (py3 rt) || as_list = false
   \/ failure (records (w_codebase w) kw) = None ->
   exists results, fst (get_results rt as_list kw w) = Ret results)
  /\ forall results,
       fst (get_results rt as_list kw w) = Ret results ->
       keys results
       = ("headers" :: keys (attribute_items (w_codebase w)) ++ ["files"])%list
       /\ dict_get "files" results
          = Some (if negb (py3 rt) || as_list
                  then Concrete (JList (yielded (records (w_codebase w) kw)))
                  else Lazy (List.length (w_maps w)))
       /\ nth_error (w_maps (snd (get_results rt as_list kw w)))
            (List.length (w_maps w))
          = Some (if negb (py3 rt) || as_list then []
                  else records (w_codebase w) kw)
       /\ (negb (py3 rt) || as_list = true ->
           List.length (yielded (records (w_codebase w) kw))
           = List.length (resources (w_codebase w))).
Proof.
  intros Hn Hh Hf. rewrite get_results_spec. cbn [fst snd].
  unfold got, after_get. proj.
  rewrite keys_results_base by assumption.
  assert (Hk : forall v : pyval,
    keys (dict_set "files" v
            (("headers", Concrete (JDict (headers (injected (w_codebase w)))))
             :: map (fun kv => (fst kv, Concrete (snd kv)))
                  (attribute_items (w_codebase w))))
    = ("headers" :: keys (attribute_items (w_codebase w)) ++ ["files"])%list).
  { intros v. rewrite dict_set_new.
    - unfold keys. rewrite map_app. cbn [map fst]. rewrite map_map.
      reflexivity.
    - unfold keys. cbn [map fst]. rewrite map_map. cbn [fst].
      intros [E|Hin]; [discriminate | now apply Hf]. }
  destruct (negb (py3 rt) || as_list).
  - split.
    + intros [E|E]; [discriminate|]. rewrite E. eexists; reflexivity.
    + intros results Hr.
      destruct (failure (records (w_codebase w) kw)) eqn:Hok; [discriminate|].
      injection Hr as <-.
      destruct (yielded_all _ Hok) as (Hlen & Hun & _).
      split; [apply Hk|]. split; [apply dict_get_set|].
      split; [now rewrite nth_error_last, Hun|].
      intros _. now rewrite Hlen, length_records.
  - split.
    + intros _. eexists; reflexivity.
    + intros results Hr. injection Hr as <-.
      split; [apply Hk|]. split; [apply dict_get_set|].
      split; [now rewrite nth_error_last | discriminate].
Qed.

Lemma get_results_mapping_witness :
  NoDup (keys (attribute_items scenario_codebase))
  /\ ~ In "headers" (keys (attribute_items scenario_codebase))
  /\ ~ In "files" (keys (attribute_items scenario_codebase))
  /\ (false = false \/ failure (records scenario_codebase []) = None ->
      exists results,
        fst (get_results Py3 false [] scenario_world) = Ret results)
  /\ forall results,
       fst (get_results Py3 false [] scenario_world) = Ret results ->
       keys results = ["headers"; "files"]
       /\ dict_get "files" results = Some (Lazy 0)
       /\ nth_error (w_maps (snd (get_results Py3 false [] scenario_world))) 0
          = Some [Yield (JDict [("path", JStr "a.txt")]);
                  Yield (JDict [("path", JStr "b.txt")])]
       /\ (false = true -> 2 = 2).
Proof.
  assert (H1 : NoDup (keys (attribute_items scenario_codebase)))
    by constructor.
  assert (H2 : ~ In "headers" (keys (attribute_items scenario_codebase)))
    by (cbn; tauto).
  assert (H3 : ~ In "files" (keys (attribute_items scenario_codebase)))
    by (cbn; tauto).
  repeat (split; [assumption|]).
  exact (get_results_mapping Py3 false [] scenario_world H1 H2 H3).
Defined.

(* ================================================================= *)
(** * The effect on the codebase *)

Lemma count_after_get rt as_list kw w :
  exists evs,
    w_trace (after_get rt as_list kw w) = (w_trace w ++ evs)%list
    /\ count is_injection evs = 1.
Proof.
  unfold after_get. proj. eexists. split; [reflexivity|].
  rewrite count_app.
  destruct (negb (py3 rt) || as_list);
    [rewrite count_repeat_next|]; reflexivity.
Qed.

Lemma count_after_write rt d pretty kw w :
  exists evs,
    w_trace (after_write rt d pretty kw w) = (w_trace w ++ evs)%list
    /\ count is_injection evs = 1.
Proof.
  unfold after_write. proj. eexists. split; [reflexivity|].
  rewrite count_app, count_written by reflexivity.
  rewrite andb_false_r. destruct d; reflexivity.
Qed.

Lemma usable_after_write rt d pretty kw w :
  usable w d = true -> usable (after_write rt d pretty kw w) d = true.
Proof.
  destruct d as [p|fd]; cbn [usable]; [auto|].
  now rewrite is_open_after_write, accepts_after_write.
Qed.

(** C9, as stated, fails: an invocation of [write_results] on a path that
    cannot be opened raises before the stream block and never reaches the
    injection. *)
Lemma injection_counterexample :
  fst (write_results Py3 (Path "/locked/scan.json") false [] locked_world)
  = Raise IOError
  /\ count is_injection
       (w_trace (snd (write_results Py3 (Path "/locked/scan.json") false []
                        locked_world))) <> 1
  /\ w_codebase (snd (write_results Py3 (Path "/locked/scan.json") false []
                        locked_world))
     = scenario_codebase.
Proof. vm_compute. repeat split. discriminate. Qed.

(** C9, amended: every invocation of [get_results], and every invocation
    of [write_results] whose sink is usable, performs the injection exactly
    once and changes nothing else of the codebase; an invocation of
    [write_results] whose sink cannot be used (the path does not open, the
    sink given is closed or does not take the stream's writes) raises before
    the stream block, with no event at all: no injection, and the codebase is
    as it was.  So [n] invocations of [get_results], or of [write_results] on
    a usable sink, make [n] injections. *)
Theorem injection_once_per_invocation rt kw w :
  (forall as_list, exists evs,
      w_trace (invoke (get_results rt as_list kw) w) = (w_trace w ++ evs)%list
      /\ count is_injection evs = 1
      /\ w_codebase (invoke (get_results rt as_list kw) w)
         = injected (w_codebase w))
  /\ (forall d pretty, exists evs,
        w_trace (invoke (write_results rt d pretty kw) w)
        = (w_trace w ++ evs)%list
        /\ count is_injection evs = (if usable w d then 1 else 0)
        /\ w_codebase (invoke (write_results rt d pretty kw) w)
           = (if usable w d then injected (w_codebase w) else w_codebase w)
        /\ (usable w d = false ->
            evs = []
            /\ fst (write_results rt d pretty kw w)
               = Raise (match d with
                        | Path _ => IOError
                        | Sink fd => refusal w fd
                        end)))
  /\ (forall as_list n,
        count is_injection
          (w_trace (Nat.iter n (invoke (get_results rt as_list kw)) w))
        = count is_injection (w_trace w) + n)
  /\ (forall d pretty n,
        usable w d = true ->
        count is_injection
          (w_trace (Nat.iter n (invoke (write_results rt d pretty kw)) w))
        = count is_injection (w_trace w) + n).
Proof.
  assert (Hget : forall as_list w0, exists evs,
    w_trace (invoke (get_results rt as_list kw) w0) = (w_trace w0 ++ evs)%list
    /\ count is_injection evs = 1
    /\ w_codebase (invoke (get_results rt as_list kw) w0)
       = injected (w_codebase w0)).
  { intros as_list w0. unfold invoke. rewrite get_results_spec. cbn [snd].
    destruct (count_after_get rt as_list kw w0) as (evs & Ht & Hc).
    exists evs. repeat split; assumption. }
  assert (Hwrite : forall d pretty w0, exists evs,
    w_trace (invoke (write_results rt d pretty kw) w0)
    = (w_trace w0 ++ evs)%list
    /\ count is_injection evs = (if usable w0 d then 1 else 0)
    /\ w_codebase (invoke (write_results rt d pretty kw) w0)
       = (if usable w0 d then injected (w_codebase w0) else w_codebase w0)
    /\ (usable w0 d = false ->
        evs = []
        /\ fst (write_results rt d pretty kw w0)
           = Raise (match d with
                    | Path _ => IOError
                    | Sink fd => refusal w0 fd
                    end))).
  { intros d pretty w0. unfold invoke. destruct (usable w0 d) eqn:Hu.
    - rewrite write_results_usable by assumption. cbn [snd].
      destruct (count_after_write rt d pretty kw w0) as (evs & Ht & Hc).
      exists evs. repeat split; try assumption; discriminate.
    - exists []. rewrite List.app_nil_r. destruct d as [p|fd].
      + cbn in Hu. apply negb_false_iff in Hu.
        rewrite write_results_denied by assumption. now repeat split.
      + rewrite write_results_refused by assumption. now repeat split. }
  split; [intros; apply Hget|]. split; [intros; apply Hwrite|]. split.
  - intros as_list n. induction n as [|n IH]; [cbn; lia|].
    change (Nat.iter (S n) ?f ?x) with (f (Nat.iter n f x)).
    destruct (Hget as_list (Nat.iter n (invoke (get_results rt as_list kw)) w))
      as (evs & Ht & Hc & _).
    rewrite Ht, count_app, IH, Hc. lia.
  - intros d pretty n Hu.
    assert (Hinv : usable (Nat.iter n (invoke (write_results rt d pretty kw)) w)
                     d = true
                   /\ count is_injection
                        (w_trace (Nat.iter n
                                    (invoke (write_results rt d pretty kw)) w))
                      = count is_injection (w_trace w) + n).
    { induction n as [|n [IHu IHc]]; [cbn; split; [assumption|lia]|].
      change (Nat.iter (S n) ?f ?x) with (f (Nat.iter n f x)).
      destruct (Hwrite d pretty
                  (Nat.iter n (invoke (write_results rt d pretty kw)) w))
        as (evs & Ht & Hc & _ & _).
      rewrite IHu in Hc. split.
      - unfold invoke at 1. rewrite write_results_usable by assumption.
        cbn [snd]. now apply usable_after_write.
      - rewrite Ht, count_app, IHc, Hc. lia. }
    apply Hinv.
Qed.

(** The same on a sink the caller opened in binary mode: the sink is open,
    the stream cannot write its opening brace, and the invocation raises
    without an injection. *)
Example binary_sink_refused :
  let run := write_results Py3 (Sink 0) true [] binary_world in
  is_open binary_world 0 = true
  /\ fst run = Raise TypeError
  /\ count is_injection (w_trace (snd run)) = 0
  /\ w_codebase (snd run) = scenario_codebase
  /\ sink_data (snd run) 0 = Some "".
Proof. vm_compute. repeat split. Qed.

(* ================================================================= *)
(** * The files entry *)





(* ================================================================= *)
(** * Further properties of the two operations *)

(** ** Mappings with keys that are already present *)

Lemma mem_In k l : mem k l = true <-> In k l.
Proof.
  unfold mem. rewrite existsb_exists. split.
  - intros (x & Hin & E). apply String.eqb_eq in E. now subst.
  - intros H. exists k. split; [assumption | apply String.eqb_refl].
Qed.

Lemma mem_false k l : mem k l = false <-> ~ In k l.
Proof.
  rewrite <- mem_In. destruct (mem k l); split; congruence.
Qed.

Lemma mem_cons_other k x l : k <> x -> mem k (x :: l) = mem k l.
Proof.
  intros N. unfold mem. cbn [existsb].
  now destruct (String.eqb_spec k x); [congruence|].
Qed.

Lemma dict_get_set_other {V} k k' (v : V) d :
  k <> k' -> dict_get k (dict_set k' v d) = dict_get k d.
Proof.
  intros N. induction d as [|[k1 v1] d IH]; cbn.
  - destruct (String.eqb_spec k' k); [congruence | reflexivity].
  - destruct (String.eqb_spec k1 k') as [->|N1]; cbn.
    + destruct (String.eqb_spec k' k); [congruence | reflexivity].
    + destruct (String.eqb_spec k1 k); [reflexivity | exact IH].
Qed.

Lemma dict_set_set {V} k (v v' : V) d :
  dict_set k v (dict_set k v' d) = dict_set k v d.
Proof.
  induction d as [|[k1 v1] d IH]; cbn.
  - now rewrite String.eqb_refl.
  - destruct (String.eqb k1 k) eqn:E; cbn; rewrite E; [reflexivity|].
    now rewrite IH.
Qed.

Lemma keys_dict_set {V} k (v : V) d :
  keys (dict_set k v d) = if mem k (keys d) then keys d else (keys d ++ [k])%list.
Proof.
  induction d as [|[k1 v1] d IH]; cbn; [reflexivity|].
  rewrite (String.eqb_sym k k1).
  destruct (String.eqb k1 k) eqn:E; cbn; [reflexivity|].
  unfold keys in *. rewrite IH. unfold mem.
  now destruct (existsb (String.eqb k) (map fst d)).
Qed.

Lemma dict_update_cons {V} k (v : V) o d :
  dict_update d ((k, v) :: o) = dict_update (dict_set k v d) o.
Proof. reflexivity. Qed.

Lemma keys_dict_update {V} (o : list (string * V)) : forall d,
  NoDup (keys o) ->
  keys (dict_update d o)
  = (keys d ++ filter (fun k => negb (mem k (keys d))) (keys o))%list.
Proof.
  induction o as [|[k v] o IH]; intros d Hn.
  - cbn. now rewrite List.app_nil_r.
  - inversion Hn as [|? ? Hk Hn']; subst.
    rewrite dict_update_cons, IH by assumption. rewrite keys_dict_set.
    change (keys ((k, v) :: o)) with (k :: keys o). cbn [filter].
    destruct (mem k (keys d)) eqn:E; cbn [negb].
    + reflexivity.
    + rewrite <- List.app_assoc. cbn [List.app]. do 2 f_equal.
      apply filter_ext_in. intros x Hx. f_equal.
      unfold mem. rewrite existsb_app. cbn [existsb].
      destruct (String.eqb_spec x k) as [->|N]; [contradiction|].
      now rewrite !orb_false_r.
Qed.

Lemma dict_get_absent {V} k (o : list (string * V)) :
  ~ In k (keys o) -> dict_get k o = None.
Proof.
  induction o as [|[k2 v2] o IH]; cbn; [reflexivity|]. intros H.
  destruct (String.eqb_spec k2 k) as [->|N]; [tauto|]. apply IH. tauto.
Qed.

Lemma dict_get_update {V} k (o : list (string * V)) : forall d,
  NoDup (keys o) ->
  dict_get k (dict_update d o)
  = match dict_get k o with
    | Some v => Some v
    | None => dict_get k d
    end.
Proof.
  induction o as [|[k1 v1] o IH]; intros d Hn.
  - reflexivity.
  - inversion Hn as [|? ? Hk Hn']; subst.
    rewrite dict_update_cons, IH by assumption. cbn [dict_get].
    destruct (String.eqb_spec k1 k) as [->|N].
    + rewrite (dict_get_absent k o) by assumption. apply dict_get_set.
    + destruct (dict_get k o); [reflexivity|].
      apply dict_get_set_other. congruence.
Qed.

Lemma dict_get_concrete k (a : list (string * json)) :
  dict_get k (map (fun kv => (fst kv, Concrete (snd kv))) a)
  = option_map Concrete (dict_get k a).
Proof.
  induction a as [|[k1 v1] a IH]; cbn; [reflexivity|].
  destruct (String.eqb k1 k); [reflexivity | exact IH].
Qed.

Lemma keys_concrete (a : list (string * json)) :
  keys (map (fun kv => (fst kv, Concrete (snd kv))) a) = keys a.
Proof. unfold keys. rewrite map_map. reflexivity. Qed.

Lemma NoDup_filter {A} (p : A -> bool) l : NoDup l -> NoDup (filter p l).
Proof.
  induction 1 as [|x l Hx Hn IH]; cbn; [constructor|].
  destruct (p x); [|assumption]. constructor; [|assumption].
  rewrite filter_In. tauto.
Qed.

(** The value [get_results] returns, when it returns. *)
Lemma got_value rt as_list kw w results :
  fst (get_results rt as_list kw w) = Ret results ->
  results
  = dict_set "files"
      (if negb (py3 rt) || as_list
       then Concrete (JList (yielded (records (w_codebase w) kw)))
       else Lazy (List.length (w_maps w)))
      (results_base (w_codebase w)).
Proof.
  rewrite get_results_spec. cbn [fst]. unfold got.
  destruct (negb (py3 rt) || as_list).
  - destruct (failure (records (w_codebase w) kw)); [discriminate|].
    now intros [= <-].
  - now intros [= <-].
Qed.

(** X1: the mapping [get_results] returns, attributes named [headers] or
    [files] included.  The keys are [headers], the attribute keys other than
    [headers] in their order, then [files] unless an attribute has that name;
    no key occurs twice.  Looking up [files] gives the file records whatever
    the attributes hold; any other key gives the attribute of that name when
    there is one, so an attribute named [headers] hides the headers. *)
Theorem get_results_lookup rt as_list kw w results :
  NoDup (keys (attribute_items (w_codebase w))) ->
  fst (get_results rt as_list kw w) = Ret results ->
  keys results
  = ("headers"
     :: filter (fun k => negb (String.eqb k "headers"))
          (keys (attribute_items (w_codebase w)))
     ++ (if mem "files" (keys (attribute_items (w_codebase w)))
         then [] else ["files"]))%list
  /\ NoDup (keys results)
  /\ dict_get "files" results
     = Some (if negb (py3 rt) || as_list
             then Concrete (JList (yielded (records (w_codebase w) kw)))
             else Lazy (List.length (w_maps w)))
  /\ forall k, k <> "files" ->
       dict_get k results
       = match dict_get k (attribute_items (w_codebase w)) with
         | Some v => Some (Concrete v)
         | None =>
             if String.eqb k "headers"
             then Some (Concrete (JDict (headers (injected (w_codebase w)))))
             else None
         end.
Proof.
  intros Hn Hr. apply got_value in Hr. subst results.
  set (f := if negb (py3 rt) || as_list then _ else _).
  set (a := attribute_items (w_codebase w)) in *.
  assert (Hkb : keys (results_base (w_codebase w))
                = "headers" :: filter (fun k => negb (String.eqb k "headers"))
                                 (keys a)).
  { unfold results_base. fold a.
    rewrite keys_dict_update by now rewrite keys_concrete.
    rewrite keys_concrete. cbn [keys map fst List.app]. f_equal.
    apply filter_ext. intros k. unfold mem. cbn [existsb].
    now rewrite orb_false_r. }
  assert (Hmem : mem "files" (keys (results_base (w_codebase w)))
                 = mem "files" (keys a)).
  { rewrite Hkb. rewrite mem_cons_other by discriminate.
    destruct (mem "files" (keys a)) eqn:E.
    - apply mem_In. apply filter_In. split; [now apply mem_In | reflexivity].
    - apply mem_false. rewrite filter_In. apply mem_false in E. tauto. }
  assert (Hk : keys (dict_set "files" f (results_base (w_codebase w)))
               = ("headers"
                  :: filter (fun k => negb (String.eqb k "headers")) (keys a)
                  ++ (if mem "files" (keys a) then [] else ["files"]))%list).
  { rewrite keys_dict_set, Hmem, Hkb.
    destruct (mem "files" (keys a)); [now rewrite List.app_nil_r | reflexivity]. }
  split; [exact Hk|]. split; [|split].
  - rewrite Hk. constructor.
    + rewrite in_app_iff, filter_In. intros [[_ H]|H].
      * now rewrite String.eqb_refl in H.
      * destruct (mem "files" (keys a)); cbn in H; [tauto|].
        destruct H as [H|[]]; discriminate.
    + destruct (mem "files" (keys a)) eqn:E.
      * rewrite List.app_nil_r. now apply NoDup_filter.
      * apply NoDup_app.
        -- now apply NoDup_filter.
        -- repeat constructor. cbn. tauto.
        -- intros k Hin [<-|[]]. apply filter_In in Hin.
           apply mem_false in E. tauto.
  - apply dict_get_set.
  - intros k Hkf. rewrite dict_get_set_other by assumption.
    unfold results_base. fold a.
    rewrite dict_get_update by now rewrite keys_concrete.
    rewrite dict_get_concrete.
    destruct (dict_get k a); cbn [option_map dict_get]; [reflexivity|].
    rewrite (String.eqb_sym k). now destruct (String.eqb "headers" k).
Qed.

Lemma get_results_lookup_witness :
  NoDup (keys (attribute_items (w_codebase clash_world)))
  /\ fst (get_results Py3 true [] clash_world)
     = Ret [("headers",
             Concrete (JDict [("tool_version", JStr "1.0");
                              ("files_count", JInt 1)]));
            ("files", Concrete (JList [JDict [("path", JStr "a.txt")]]));
            ("summary", Concrete (JInt 2))]
  /\ keys [("headers",
            Concrete (JDict [("tool_version", JStr "1.0");
                             ("files_count", JInt 1)]));
           ("files", Concrete (JList [JDict [("path", JStr "a.txt")]]));
           ("summary", Concrete (JInt 2))]
     = ["headers"; "files"; "summary"].
Proof.
  assert (Hn : NoDup (keys (attribute_items (w_codebase clash_world)))).
  { repeat constructor; cbn; intuition discriminate. }
  split; [exact Hn|]. split; [reflexivity|].
  exact (proj1 (get_results_lookup Py3 true [] clash_world _ Hn eq_refl)).
Defined.

(** ** [get_results] and the world *)

(** X2: [get_results] does no output: the file objects, the paths that
    cannot be opened and the streams are as before, and all it does to its
    collaborators is inject the count, read the headers, ask for the
    sequence and, where a list is asked for, read that sequence. *)
Theorem get_results_no_output rt as_list kw w :
  w_files (snd (get_results rt as_list kw w)) = w_files w
  /\ w_denied (snd (get_results rt as_list kw w)) = w_denied w
  /\ w_streams (snd (get_results rt as_list kw w)) = w_streams w
  /\ exists evs,
       w_trace (snd (get_results rt as_list kw w)) = (w_trace w ++ evs)%list
       /\ forall e, In e evs ->
            e = EvAddFilesCount \/ e = EvGetHeaders
            \/ e = EvGetFiles (List.length (w_maps w))
            \/ e = EvNext (List.length (w_maps w)).
Proof.
  rewrite get_results_spec. cbn [snd]. unfold after_get. proj.
  repeat (split; [reflexivity|]). eexists. split; [reflexivity|].
  intros e Hin. apply in_app_iff in Hin. destruct Hin as [Hin|Hin].
  - cbn in Hin. intuition.
  - destruct (negb (py3 rt) || as_list); [|contradiction].
    apply repeat_spec in Hin. auto.
Qed.

(** X3: on Python 3 [get_results] without [as_list] always returns, even
    for a sequence that raises: it reads nothing of the sequence and hands
    the map object over untouched.  Reading that object afterwards with
    [list] leaves the same world, and gives the same list or raises the same
    exception, as [get_results] with [as_list]: the flag only moves the
    reading from the caller into the operation. *)
Theorem get_results_lazy kw w :
  exists base,
    fst (get_results Py3 false kw w)
    = Ret (dict_set "files" (Lazy (List.length (w_maps w))) base)
    /\ nth_error (w_maps (snd (get_results Py3 false kw w)))
         (List.length (w_maps w))
       = Some (records (w_codebase w) kw)
    /\ count is_next (w_trace (snd (get_results Py3 false kw w)))
       = count is_next (w_trace w)
    /\ snd (list_ (Lazy (List.length (w_maps w)))
              (snd (get_results Py3 false kw w)))
       = snd (get_results Py3 true kw w)
    /\ fst (get_results Py3 true kw w)
       = match fst (list_ (Lazy (List.length (w_maps w)))
                      (snd (get_results Py3 false kw w))) with
         | Ret files => Ret (dict_set "files" files base)
         | Raise e => Raise e
         end.
Proof.
  exists (results_base (w_codebase w)).
  rewrite !get_results_spec. cbn [fst snd]. unfold got, after_get.
  cbn [py3 negb orb]. proj.
  split; [reflexivity|]. split; [apply nth_error_last|]. split.
  - rewrite count_app. rewrite List.app_nil_r. unfold count at 2. cbn. lia.
  - rewrite list_lazy. cbn [fst snd]. split.
    + f_equal. rewrite List.app_nil_r, <- List.app_assoc. reflexivity.
    + now destruct (failure (records (w_codebase w) kw)).
Qed.

(** X4: on Python 2 the flag [as_list] changes nothing: the sequence is a
    list as soon as the collaborator returns it, and [get_results] does
    exactly what it does on Python 3 with [as_list]. *)
Theorem get_results_python2 as_list kw w :
  get_results Py2 as_list kw w = get_results Py3 true kw w.
Proof. rewrite !get_results_spec. reflexivity. Qed.

(** ** [write_results] and the world *)

Lemma nth_error_after_write_other rt d pretty kw w fd :
  fd <> target w d ->
  nth_error (w_files (after_write rt d pretty kw w)) fd
  = nth_error (w_files w) fd.
Proof.
  intros H. unfold after_write. proj. destruct d as [p|fd']; cbn [target] in H.
  - destruct (Nat.lt_ge_cases fd (List.length (w_files w))) as [L|L].
    + now rewrite nth_error_app1.
    + rewrite (proj2 (nth_error_None _ _)) by (rewrite length_app; cbn; lia).
      symmetry. apply nth_error_None. lia.
  - now rewrite nth_error_update_nth_other by congruence.
Qed.

(** X5: [write_results] touches its own sink only.  Every other file
    object is as before, contents and open state; the maps and streams that
    existed are still there, unchanged; and what its sink already held stays
    in front of what the run writes. *)
Theorem write_results_frame rt d pretty kw w :
  (forall fd, fd <> target w d ->
     nth_error (w_files (snd (write_results rt d pretty kw w))) fd
     = nth_error (w_files w) fd)
  /\ w_denied (snd (write_results rt d pretty kw w)) = w_denied w
  /\ (exists ms, w_maps (snd (write_results rt d pretty kw w))
                 = (w_maps w ++ ms)%list)
  /\ (exists ss, w_streams (snd (write_results rt d pretty kw w))
                 = (w_streams w ++ ss)%list)
  /\ (forall held, sink_data w (target w d) = Some held ->
        exists text,
          sink_data (snd (write_results rt d pretty kw w)) (target w d)
          = Some (held ++ text)).
Proof.
  destruct (usable w d) eqn:Hu.
  - rewrite write_results_usable by assumption. cbn [snd].
    split; [intros fd Hfd; now apply nth_error_after_write_other|].
    split; [reflexivity|]. split; [eexists; reflexivity|].
    split; [eexists; reflexivity|].
    intros held Hheld. rewrite sink_data_target by assumption.
    destruct d as [p|fd]; cbn [target before] in *.
    + unfold sink_data in Hheld.
      rewrite (proj2 (nth_error_None _ _)) in Hheld by lia. discriminate.
    + rewrite Hheld. eexists; reflexivity.
  - destruct d as [p|fd]; cbn [usable] in Hu.
    + apply negb_false_iff in Hu. rewrite write_results_denied by assumption.
      cbn [snd]. repeat split; try reflexivity.
      * exists []. now rewrite List.app_nil_r.
      * exists []. now rewrite List.app_nil_r.
      * intros held Hheld. exists "". now rewrite append_nil_r.
    + rewrite write_results_refused by assumption. cbn [snd].
      unfold set_streams. proj. repeat split; try reflexivity.
      * exists []. now rewrite List.app_nil_r.
      * eexists; reflexivity.
      * intros held Hheld. exists "". rewrite append_nil_r. exact Hheld.
Qed.


Lemma sequence_raising rs e rest :
  failure (map Yield rs ++ Throw e :: rest)%list = Some e
  /\ yielded (map Yield rs ++ Throw e :: rest)%list = rs
  /\ unread (map Yield rs ++ Throw e :: rest)%list = rest.
Proof.
  induction rs as [|r rs (A & B & C)]; cbn; [auto|].
  repeat split; [assumption | now rewrite B | assumption].
Qed.

(** X7: when the sequence raises at some record, [write_results] on a
    usable sink raises that same exception.  By then the count is in the
    headers and the headers and attributes are on the sink, in a document
    without [files]; the sequence was read up to the failing record and no
    further, so the records after it are still in the map object. *)
Theorem write_results_sequence_raises rt d pretty kw w rs e rest :
  usable w d = true ->
  records (w_codebase w) kw = (map Yield rs ++ Throw e :: rest)%list ->
  fst (write_results rt d pretty kw w) = Raise e
  /\ w_codebase (snd (write_results rt d pretty kw w))
     = injected (w_codebase w)
  /\ nth_error (w_maps (snd (write_results rt d pretty kw w)))
       (List.length (w_maps w)) = Some rest
  /\ (exists evs,
        w_trace (snd (write_results rt d pretty kw w)) = (w_trace w ++ evs)%list
        /\ count is_next evs = S (List.length rs))
  /\ exists text,
       sink_data (snd (write_results rt d pretty kw w)) (target w d)
       = Some (before w d ++ text)
       /\ parse text
          = Some (JDict (("headers", JDict (headers (injected (w_codebase w))))
                         :: attribute_items (w_codebase w))).
Proof.
  intros Hu Hrec.
  destruct (sequence_raising rs e rest) as (Hf & Hy & Hun).
  rewrite <- Hrec in Hf, Hy, Hun.
  destruct (emitted rt d pretty kw w Hu) as (Hr & Hd & Hp & _).
  rewrite Hr, Hd. rewrite write_results_usable by assumption. cbn [snd].
  unfold outcome. rewrite Hf.
  split; [reflexivity|]. split; [reflexivity|]. split; [|split].
  - unfold after_write. proj. now rewrite nth_error_last, Hun.
  - unfold after_write. proj. eexists. split; [reflexivity|].
    rewrite count_app.
    replace (count is_next (opening rt w d)) with 0 by now destruct d.
    unfold written_events. rewrite !count_app, count_repeat_next.
    rewrite !count_entries_none by reflexivity.
    unfold pulls. rewrite Hf, Hy.
    replace (count is_next (if owned d then _ else _)) with 0
      by now destruct (owned d).
    unfold count. cbn. lia.
  - eexists. split; [reflexivity|]. rewrite Hp.
    unfold written_entries, files_entry. rewrite Hf.
    now rewrite List.app_nil_r.
Qed.

Lemma write_results_sequence_raises_witness :
  usable broken_world (Path "scan.json") = true
  /\ records (w_codebase broken_world) []
     = (map Yield [JDict [("path", JStr "a.txt")]]
        ++ Throw CollaboratorError :: [Yield (JDict [("path", JStr "c.txt")])])%list
  /\ fst (write_results Py3 (Path "scan.json") false [] broken_world)
     = Raise CollaboratorError.
Proof.
  split; [reflexivity|]. split; [reflexivity|].
  exact (proj1 (write_results_sequence_raises Py3 (Path "scan.json") false []
                  broken_world [JDict [("path", JStr "a.txt")]]
                  CollaboratorError [Yield (JDict [("path", JStr "c.txt")])]
                  eq_refl eq_refl)).
Defined.

(** ** The two operations side by side *)

Lemma concrete_items_app a b a' b' :
  concrete_items a = Some a' -> concrete_items b = Some b' ->
  concrete_items (a ++ b) = Some (a' ++ b')%list.
Proof.
  revert a'. induction a as [|[k [j|m]] a IH]; intros a' Ha Hb; cbn in *.
  - now injection Ha as <-.
  - destruct (concrete_items a) as [x|]; [|discriminate].
    injection Ha as <-. now rewrite (IH x eq_refl Hb).
  - discriminate.
Qed.

Lemma concrete_items_map (a : list (string * json)) :
  concrete_items (map (fun kv => (fst kv, Concrete (snd kv))) a) = Some a.
Proof.
  induction a as [|[k v] a IH]; cbn; [reflexivity|]. now rewrite IH.
Qed.

(** X8: the two operations agree.  For a codebase none of whose attributes
    is named [headers] or [files], whenever [write_results] completes on a
    usable sink, [get_results] with [as_list], run on the same codebase,
    returns a mapping of plain values, and the document on the sink parses
    to exactly that mapping: same keys, same order, same values. *)
Theorem write_results_agrees_with_get_results rt d pretty kw w :
  NoDup (keys (attribute_items (w_codebase w))) ->
  ~ In "headers" (keys (attribute_items (w_codebase w))) ->
  ~ In "files" (keys (attribute_items (w_codebase w))) ->
  usable w d = true ->
  fst (write_results rt d pretty kw w) = Ret tt ->
  exists results entries text,
    fst (get_results rt true kw w) = Ret results
    /\ concrete_items results = Some entries
    /\ sink_data (snd (write_results rt d pretty kw w)) (target w d)
       = Some (before w d ++ text)
    /\ parse text = Some (JDict entries).
Proof.
  intros Hn Hh Hf Hu Hok.
  destruct (emitted rt d pretty kw w Hu) as (Hr & Hd & Hp & _).
  rewrite Hr in Hok. unfold outcome in Hok.
  destruct (failure (records (w_codebase w) kw)) eqn:Hfail; [discriminate|].
  rewrite get_results_spec. cbn [fst]. unfold got.
  rewrite orb_true_r, Hfail.
  eexists. exists (written_entries (w_codebase w) kw).
  exists (written_text pretty (w_codebase w) kw).
  split; [reflexivity|]. split; [|split; assumption].
  rewrite keys_results_base by assumption.
  rewrite dict_set_new.
  - unfold written_entries, files_entry. rewrite Hfail.
    change (?x :: ?l ++ ?r)%list with ((x :: l) ++ r)%list.
    apply concrete_items_app; [|reflexivity].
    cbn [concrete_items]. now rewrite concrete_items_map.
  - unfold keys. cbn [map fst]. rewrite map_map. cbn [fst].
    intros [E|Hin]; [discriminate | now apply Hf].
Qed.

Lemma write_results_agrees_with_get_results_witness :
  NoDup (keys (attribute_items (w_codebase scenario_world)))
  /\ ~ In "headers" (keys (attribute_items (w_codebase scenario_world)))
  /\ ~ In "files" (keys (attribute_items (w_codebase scenario_world)))
  /\ usable scenario_world (Sink 0) = true
  /\ fst (write_results Py3 (Sink 0) true [] scenario_world) = Ret tt
  /\ exists results entries text,
       fst (get_results Py3 true [] scenario_world) = Ret results
       /\ concrete_items results = Some entries
       /\ sink_data (snd (write_results Py3 (Sink 0) true [] scenario_world)) 0
          = Some text
       /\ parse text = Some (JDict entries).
Proof.
  assert (H1 : NoDup (keys (attribute_items (w_codebase scenario_world))))
    by constructor.
  assert (H2 : ~ In "headers"
                 (keys (attribute_items (w_codebase scenario_world))))
    by (cbn; tauto).
  assert (H3 : ~ In "files"
                 (keys (attribute_items (w_codebase scenario_world))))
    by (cbn; tauto).
  repeat (split; [assumption || reflexivity|]).
  exact (write_results_agrees_with_get_results Py3 (Sink 0) true []
           scenario_world H1 H2 H3 eq_refl eq_refl).
Defined.

Lemma compact_then_pretty_witness :
  usable scenario_world (Sink 0) = true
  /\ usable (snd (JsonCompactOutput_process_codebase Py3 (Sink 0) []
                    scenario_world)) (Path "pretty.json") = true
  /\ exists compact pretty doc,
       sink_data (snd (JsonCompactOutput_process_codebase Py3 (Sink 0) []
                         scenario_world)) 0
       = Some compact
       /\ sink_data
            (snd (JsonPrettyOutput_process_codebase Py3 (Path "pretty.json") []
                    (snd (JsonCompactOutput_process_codebase Py3 (Sink 0) []
                            scenario_world)))) 1
          = Some pretty
       /\ parse compact = Some doc
       /\ parse pretty = Some doc.
Proof.
  split; [reflexivity|]. split; [reflexivity|].
  exact (compact_then_pretty Py3 (Sink 0) (Path "pretty.json") []
           scenario_world eq_refl eq_refl).
Defined.

(** ** What the render mode and an empty attributes object change *)

Lemma filter_entries_events fd ind pr es : forall cm,
  filter is_entry (entries_events fd ind pr cm es)
  = map (fun kv => EvEntry (fst kv) (Concrete (snd kv))) es.
Proof.
  induction es as [|e es IH]; intros cm; [reflexivity|].
  cbn [entries_events map]. rewrite filter_app, IH.
  unfold entry_events. destruct cm; reflexivity.
Qed.

Lemma filter_entries_written fd cfd pretty c kw m :
  filter is_entry (written_events fd cfd pretty c kw m)
  = map (fun kv => EvEntry (fst kv) (Concrete (snd kv)))
      ((("headers", JDict (headers (injected c))) :: attribute_items c)
       ++ files_entry c kw).
Proof.
  unfold written_events. rewrite !filter_app, !filter_entries_events.
  assert (Hn : filter is_entry (repeat (EvNext m) (pulls (records c kw))) = []).
  { induction (pulls (records c kw)); [reflexivity | assumption]. }
  rewrite Hn. cbn [filter is_entry List.app].
  destruct cfd; cbn [filter is_entry];
    rewrite List.app_nil_r, <- map_app; reflexivity.
Qed.

(** X9: the render mode changes the layout only.  With [pretty] or
    without, a run ends the same way, leaves the same codebase and the same
    maps, and hands the same entries, keys and values, to the stream in the
    same order. *)
Theorem render_mode_changes_layout_only rt d kw w :
  fst (write_results rt d true kw w) = fst (write_results rt d false kw w)
  /\ w_codebase (snd (write_results rt d true kw w))
     = w_codebase (snd (write_results rt d false kw w))
  /\ w_maps (snd (write_results rt d true kw w))
     = w_maps (snd (write_results rt d false kw w))
  /\ filter is_entry (w_trace (snd (write_results rt d true kw w)))
     = filter is_entry (w_trace (snd (write_results rt d false kw w))).
Proof.
  destruct (usable w d) eqn:Hu.
  - rewrite !write_results_usable by assumption. cbn [fst snd].
    unfold after_write. proj. repeat split.
    rewrite !filter_app, !filter_entries_written. reflexivity.
  - destruct d as [p|fd]; cbn [usable] in Hu.
    + apply negb_false_iff in Hu.
      rewrite !write_results_denied by assumption. repeat split.
    + rewrite !write_results_refused by assumption. repeat split.
Qed.

(** X10: an attributes object that holds nothing is written like no
    attributes object: the two codebases give the same outcome and the same
    sinks with [write_results], and the same mapping with [get_results]. *)
Theorem empty_attributes_as_none rt d pretty as_list kw hs rs n fs den ms ss
    tr :
  let w1 := mkWorld (mkCodebase hs (Some []) rs n) fs den ms ss tr in
  let w2 := mkWorld (mkCodebase hs None rs n) fs den ms ss tr in
  fst (write_results rt d pretty kw w1) = fst (write_results rt d pretty kw w2)
  /\ w_files (snd (write_results rt d pretty kw w1))
     = w_files (snd (write_results rt d pretty kw w2))
  /\ fst (get_results rt as_list kw w1) = fst (get_results rt as_list kw w2).
Proof.
  intros w1 w2.
  assert (Hu : usable w1 d = usable w2 d) by now destruct d.
  split; [|split].
  - destruct (usable w2 d) eqn:E.
    + rewrite !write_results_usable by congruence. reflexivity.
    + destruct d as [p|fd]; cbn [usable] in Hu, E.
      * apply negb_false_iff in E.
        now rewrite !write_results_denied by assumption.
      * now rewrite !write_results_refused by assumption.
  - destruct (usable w2 d) eqn:E.
    + rewrite !write_results_usable by congruence. reflexivity.
    + destruct d as [p|fd]; cbn [usable] in Hu, E.
      * apply negb_false_iff in E.
        now rewrite !write_results_denied by assumption.
      * now rewrite !write_results_refused by assumption.
  - rewrite !get_results_spec. reflexivity.
Qed.
